(** * The kubeless reconciliation controller (pkg/controller/controller.go)

    A shallow embedding of the controller's worker, its ensure and delete
    paths, the scheduled-job group/version lookup and the start-up
    garbage-collection sweep, together with the properties the
    specification states about them.

    The controller talks to three kinds of collaborators that are not part
    of the file: the orchestration platform (client-go clientsets, the
    informer's indexer, the resource builders of pkg/utils), a few pure
    helpers (key splitting, YAML decoding, deployment merging, owner
    reference computation) and the rate-limited work queue.  The first two
    are parameters of the development; the queue is modelled after the
    contract the specification gives for it. *)

From Stdlib Require Import Ascii.
From stdpp Require Import base option gmap strings list.

Open Scope string_scope.
Open Scope list_scope.
Open Scope stdpp_scope.

(** ** Errors *)

(** A Go [error] value.  [StatusNotFound] is an API status error whose
    reason is NotFound, [StatusError] any other failure reported by the
    platform, and [Errorf] an error built with [fmt.Errorf]. *)
Inductive error : Type :=
| StatusNotFound (msg : string)
| StatusError (msg : string)
| Errorf (msg : string).

(** [err.Error()] *)
Definition Error (e : error) : string :=
  match e with
  | StatusNotFound m | StatusError m | Errorf m => m
  end.

(** [k8sErrors.IsNotFound] *)
Definition IsNotFound (e : error) : bool :=
  match e with
  | StatusNotFound _ => true
  | _ => false
  end.

(** The idiom [err != nil && !k8sErrors.IsNotFound(err)]. *)
Definition fatal (err : option error) : bool :=
  match err with
  | Some e => negb (IsNotFound e)
  | None => false
  end.

(** ** Constants (controller.go, lines 44-48) *)

Definition maxRetries : nat := 5.
Definition funcKind : string := "Function".
Definition funcAPI : string := "kubeless.io".

(** [v2beta1.ObjectMetricSourceType] *)
Definition ObjectMetricSourceType : string := "Object".

(** ** Data model: the fields of the API objects the controller reads or
    writes *)

Record OwnerReference : Type := {
  or_APIVersion : string;
  or_Kind : string;
  or_Name : string;
  or_UID : string
}.

(** [metav1.ObjectMeta].  [Labels] is a Go map, which may be nil
    ([None]); reading a nil map is fine, assigning to it panics. *)
Record ObjectMeta : Type := {
  Name : string;
  Namespace : string;
  Labels : option (gmap string string);
  OwnerReferences : list OwnerReference
}.

Record MetricSpec : Type := { ms_Type : string }.

Record HorizontalPodAutoscalerSpec : Type := {
  ScaleTargetRef_Name : string;
  Metrics : list MetricSpec
}.

Record HorizontalPodAutoscaler : Type := {
  hpa_ObjectMeta : ObjectMeta;
  hpa_Spec : HorizontalPodAutoscalerSpec
}.

(** [metav1.APIResourceList], as returned by discovery. *)
Record APIResource : Type := { ar_Name : string }.
Record APIResourceList : Type := {
  GroupVersion : string;
  APIResources : list APIResource
}.

(** A pointer to a Function object held by the informer's store. *)
Definition loc : Type := positive.

(** Reasons for a run-time panic. *)
Inductive panic : Type :=
| IndexOutOfRange
| NilDereference
| NilMapAssignment.

(** [len(m)] for a possibly nil map. *)
Definition len_map (m : option (gmap string string)) : nat :=
  match m with
  | Some m => size m
  | None => 0
  end.

(** [fmt.Sprintf("%s/%s", ns, name)] *)
Definition Sprintf_key (ns name : string) : string := ns +:+ "/" +:+ name.

(** [fmt.Sprintf("trigger-%s", name)] *)
Definition Sprintf_trigger (name : string) : string := "trigger-" +:+ name.

(** ** The work queue *)

(** Modelled from the spec: the Event Queue of section 4.1, which the
    controller takes from client-go's workqueue package and which is not
    part of this repository.  [pending] are the keys awaiting delivery, in order;
    [dirty] the keys that need processing; [processing] the keys whose
    processing attempt is in flight; [waiting] the keys the rate limiter
    holds back until their backoff has elapsed; [failures] the retry
    history. *)
Record Queue : Type := {
  pending : list string;
  dirty : gset string;
  processing : gset string;
  waiting : list string;
  failures : gmap string nat;
  shuttingDown : bool
}.

(** Modelled from the spec: [add(key)] of the Event Queue: enqueue a key
    unless it is already pending; a key that is being processed is only
    marked and re-delivered once the attempt is done. *)
Definition Add (key : string) (q : Queue) : Queue :=
  if bool_decide (key ∈ dirty q) then q
  else
    let d := {[key]} ∪ dirty q in
    if bool_decide (key ∈ processing q) then
      {| pending := pending q; dirty := d; processing := processing q;
         waiting := waiting q; failures := failures q;
         shuttingDown := shuttingDown q |}
    else
      {| pending := pending q ++ [key]; dirty := d;
         processing := processing q; waiting := waiting q;
         failures := failures q; shuttingDown := shuttingDown q |}.

(** The three ways [get()] can go. *)
Inductive GetResult : Type :=
| GetItem (key : string) (q : Queue)
| GetShutdown
| GetWait.

(** Modelled from the spec: [get()] of the Event Queue: the next key, or
    the shutting-down flag; on an empty queue that is not shut down the
    caller waits. *)
Definition Get (q : Queue) : GetResult :=
  match pending q with
  | [] => if shuttingDown q then GetShutdown else GetWait
  | key :: rest =>
      GetItem key
        {| pending := rest; dirty := dirty q ∖ {[key]};
           processing := {[key]} ∪ processing q; waiting := waiting q;
           failures := failures q; shuttingDown := shuttingDown q |}
  end.

(** Modelled from the spec: [done(key)] of the Event Queue: processing is
    complete; a key marked meanwhile is enqueued again. *)
Definition Done (key : string) (q : Queue) : Queue :=
  let p := processing q ∖ {[key]} in
  if bool_decide (key ∈ dirty q) then
    {| pending := pending q ++ [key]; dirty := dirty q; processing := p;
       waiting := waiting q; failures := failures q;
       shuttingDown := shuttingDown q |}
  else
    {| pending := pending q; dirty := dirty q; processing := p;
       waiting := waiting q; failures := failures q;
       shuttingDown := shuttingDown q |}.

(** Modelled from the spec: [forget(key)] of the Event Queue: clear the
    retry history of the key. *)
Definition Forget (key : string) (q : Queue) : Queue :=
  {| pending := pending q; dirty := dirty q; processing := processing q;
     waiting := waiting q; failures := delete key (failures q);
     shuttingDown := shuttingDown q |}.

(** Modelled from the spec: [num_requeues(key)] of the Event Queue: the
    current failure count of the key. *)
Definition NumRequeues (key : string) (q : Queue) : nat :=
  default 0 (failures q !! key).

(** Modelled from the spec: [add_rate_limited(key)] of the Event Queue:
    count one more failure for the key and hand it to the rate limiter,
    which enqueues it once the backoff has elapsed. *)
Definition AddRateLimited (key : string) (q : Queue) : Queue :=
  {| pending := pending q; dirty := dirty q; processing := processing q;
     waiting := waiting q ++ [key];
     failures := <[key := S (NumRequeues key q)]> (failures q);
     shuttingDown := shuttingDown q |}.

(** Modelled from the spec: the backoff of a waiting key elapses and the
    rate limiter adds the key.  This is the only way a key comes back
    without anybody adding it. *)
Definition backoff_elapsed (key : string) (q : Queue) : Queue :=
  if bool_decide (key ∈ waiting q) then
    Add key
      {| pending := pending q; dirty := dirty q; processing := processing q;
         waiting := filter (λ k, k ≠ key) (waiting q);
         failures := failures q; shuttingDown := shuttingDown q |}
  else q.

(** All backoffs elapse, oldest first. *)
Definition all_backoffs_elapsed (q : Queue) : Queue :=
  foldl (λ q key, backoff_elapsed key q) q (waiting q).

(** Modelled from the spec: the shutdown of the Event Queue (section 5):
    from then on [get()] answers the terminal signal once nothing is
    pending. *)
Definition ShutDown (q : Queue) : Queue :=
  {| pending := pending q; dirty := dirty q; processing := processing q;
     waiting := waiting q; failures := failures q; shuttingDown := true |}.

(** What the rest of the program does to the queue while the worker
    runs: an event handler of the informer adds the key of the object it
    was told about, [queue.Add(key)] (New, lines 75-94); the rate limiter
    hands back a key whose backoff has elapsed; [Run] shuts the queue down
    on its way out, [defer c.queue.ShutDown()] (line 123). *)
Inductive interference : Type :=
| Enqueued (key : string)
| BackoffElapsed (key : string)
| Stopped.

Definition interfere (i : interference) (q : Queue) : Queue :=
  match i with
  | Enqueued key => Add key q
  | BackoffElapsed key => backoff_elapsed key q
  | Stopped => ShutDown q
  end.

(** The queue holds [key] and nothing else, [n] failures on record, ready
    for the next attempt. *)
Definition retrying (key : string) (n : nat) (q : Queue) : Prop :=
  pending q = [key] ∧ dirty q = {[key]} ∧ processing q = ∅ ∧
  waiting q = [] ∧ NumRequeues key q = n.

(** The queue has let go of [key]: nothing pending, nothing waiting, no
    retry history. *)
Definition dropped (key : string) (q : Queue) : Prop :=
  pending q = [] ∧ dirty q = ∅ ∧ processing q = ∅ ∧ waiting q = [] ∧
  failures q !! key = None.

(** [corev1.ConfigMap]: the controller's own configuration object. *)
Record ConfigMap : Type := { Data : gmap string string }.

(** [monitoringv1alpha1.MonitoringV1alpha1Client]; the controller holds a
    pointer to one, which may be nil. *)
Inductive MonitoringV1alpha1Client : Type := MonitoringClient.

(** The fields of [Controller] that the worker reads and never writes.
    The queue, the informer's store and the platform behind the clientset
    are part of the machine state below. *)
Record Controller : Type := {
  smclient : option MonitoringV1alpha1Client;
  config : ConfigMap
}.

(** [metav1.DeletionPropagation] *)
Inductive DeletionPropagation : Type :=
| DeletePropagationOrphan
| DeletePropagationBackground
| DeletePropagationForeground.

(** The lines the controller writes to its logger and to the process-wide
    error reporting ([utilruntime.HandleError]). *)
Inductive log_entry : Type :=
| LogProcessing (key : string)           (* "Processing change to Function %s" *)
| LogCantDelete (err : error)            (* "Can't delete function: %v" *)
| LogDeleted (key : string)              (* "Deleted Function %s" *)
| LogCantUpdate (err : error)            (* "Function can not be created/updated: %v" *)
| LogUpdated (key : string)              (* "Updated Function %s" *)
| LogWillRetry (key : string) (err : error)  (* "Error processing %s (will retry): %v" *)
| LogGivingUp (key : string) (err : error)   (* "Error processing %s (giving up): %v" *)
| HandleError (err : error)              (* utilruntime.HandleError(err) *)
| LogParseError (err : error)            (* "Error parsing Deployment data in ConfigMap ..." *)
| LogMergeError (err : error).           (* " Error while merging function.Spec.Deployment ..." *)

Section Payload.

(** The deployment payload ([v1beta1.Deployment]) is opaque to the
    controller: it is decoded, merged and handed on. *)
Variable Deployment : Type.

(** [kubelessApi.FunctionSpec] and [kubelessApi.Function], restricted to
    the fields the controller touches. *)
Record FunctionSpec : Type := {
  spec_Type : string;
  spec_Deployment : Deployment;
  spec_HorizontalPodAutoscaler : HorizontalPodAutoscaler
}.

Record Function : Type := {
  fn_ObjectMeta : ObjectMeta;
  fn_Spec : FunctionSpec
}.

(** *** Field assignments *)

Definition set_Labels (m : option (gmap string string)) (f : Function) : Function :=
  {| fn_ObjectMeta :=
       {| Name := Name (fn_ObjectMeta f);
          Namespace := Namespace (fn_ObjectMeta f);
          Labels := m;
          OwnerReferences := OwnerReferences (fn_ObjectMeta f) |};
     fn_Spec := fn_Spec f |}.

Definition set_Deployment (d : Deployment) (f : Function) : Function :=
  {| fn_ObjectMeta := fn_ObjectMeta f;
     fn_Spec :=
       {| spec_Type := spec_Type (fn_Spec f);
          spec_Deployment := d;
          spec_HorizontalPodAutoscaler := spec_HorizontalPodAutoscaler (fn_Spec f) |} |}.

Definition set_hpa_OwnerReferences (ors : list OwnerReference) (f : Function) : Function :=
  let hpa := spec_HorizontalPodAutoscaler (fn_Spec f) in
  {| fn_ObjectMeta := fn_ObjectMeta f;
     fn_Spec :=
       {| spec_Type := spec_Type (fn_Spec f);
          spec_Deployment := spec_Deployment (fn_Spec f);
          spec_HorizontalPodAutoscaler :=
            {| hpa_ObjectMeta :=
                 {| Name := Name (hpa_ObjectMeta hpa);
                    Namespace := Namespace (hpa_ObjectMeta hpa);
                    Labels := Labels (hpa_ObjectMeta hpa);
                    OwnerReferences := ors |};
               hpa_Spec := hpa_Spec hpa |} |} |}.

(** *** The round trips *)

(** Every round trip the controller makes: to the clientset, to the
    informer's indexer and to the resource builders of pkg/utils, which
    build a payload and apply it through the clientset.  A builder that is
    handed the Function receives the object as it is at that moment. *)
Inductive call : Type :=
| CronJobs_Get (ns name : string)
| CronJobs_Delete (ns name : string)
| Deployments_Delete (ns name : string) (policy : DeletionPropagation)
| Services_Delete (ns name : string)
| ConfigMaps_Delete (ns name : string)
| Services_List
| Deployments_List
| ConfigMaps_List
| ServerResources
| GetByKey (key : string)
| EnsureFuncConfigMap (funcObj : Function) (ors : list OwnerReference)
| EnsureFuncService (funcObj : Function) (ors : list OwnerReference)
| EnsureFuncDeployment (funcObj : Function) (ors : list OwnerReference)
| EnsureFuncCronJob (funcObj : Function) (ors : list OwnerReference) (groupVersion : string)
| CreateServiceMonitor (funcObj : Function) (ns : string) (ors : list OwnerReference)
| CreateAutoscale (hpa : HorizontalPodAutoscaler)
| DeleteServiceMonitor (name ns : string)
| DeleteAutoscale (name ns : string).

(** What each round trip answers.  Listings answer the metadata of the
    items, discovery the resource lists, the indexer a pointer when the key
    exists; everything else answers an error or nil. *)
Definition resp (c : call) : Type :=
  match c with
  | Services_List | Deployments_List | ConfigMaps_List => error + list ObjectMeta
  | ServerResources => error + list APIResourceList
  | GetByKey _ => error + option loc
  | _ => option error
  end.

(** What the controller can observe of its own run. *)
Inductive event : Type :=
| Called (c : call) (r : resp c)
| Logged (l : log_entry).

End Payload.

Arguments spec_Type {Deployment} _.
Arguments spec_Deployment {Deployment} _.
Arguments spec_HorizontalPodAutoscaler {Deployment} _.
Arguments fn_ObjectMeta {Deployment} _.
Arguments fn_Spec {Deployment} _.
Arguments set_Labels {Deployment} m f.
Arguments set_Deployment {Deployment} d f.
Arguments set_hpa_OwnerReferences {Deployment} ors f.
Arguments CronJobs_Get {Deployment} ns name.
Arguments CronJobs_Delete {Deployment} ns name.
Arguments Deployments_Delete {Deployment} ns name policy.
Arguments Services_Delete {Deployment} ns name.
Arguments ConfigMaps_Delete {Deployment} ns name.
Arguments Services_List {Deployment}.
Arguments Deployments_List {Deployment}.
Arguments ConfigMaps_List {Deployment}.
Arguments ServerResources {Deployment}.
Arguments GetByKey {Deployment} key.
Arguments EnsureFuncConfigMap {Deployment} funcObj ors.
Arguments EnsureFuncService {Deployment} funcObj ors.
Arguments EnsureFuncDeployment {Deployment} funcObj ors.
Arguments EnsureFuncCronJob {Deployment} funcObj ors groupVersion.
Arguments CreateServiceMonitor {Deployment} funcObj ns ors.
Arguments CreateAutoscale {Deployment} hpa.
Arguments DeleteServiceMonitor {Deployment} name ns.
Arguments DeleteAutoscale {Deployment} name ns.
Arguments resp {Deployment} c.
Arguments Called {Deployment} c r.
Arguments Logged {Deployment} l.

(** ** The collaborators *)

(** What the controller is given: the platform behind the clientset, the
    informer and the resource builders, with its state [World] and its
    answers [api]; and the pure helpers that live outside controller.go:
    [cache.SplitMetaNamespaceKey], [yaml.Unmarshal] into a fresh
    deployment, [utils.MergeDeployments destination source] (the
    destination after the merge, and the error) and
    [utils.GetOwnerReference]. *)
Class Platform (Deployment : Type) : Type := {
  World : Type;
  api : ∀ c : call Deployment, World → resp c * World;
  SplitMetaNamespaceKey : string → error + (string * string);
  Unmarshal : string → error + Deployment;
  MergeDeployments : Deployment → Deployment → Deployment * option error;
  GetOwnerReference : Function Deployment → error + list OwnerReference
}.

Section Controller.

Context {Deployment : Type} `{!Platform Deployment}.

(** *** Machine state *)

Record State : Type := {
  world : World;
  heap : gmap loc (Function Deployment);
  queue : Queue;
  trace : list (event Deployment)
}.

(** How a block of statements inside a function with result type [R] can
    end: it falls through with a value, the function returns, the
    goroutine panics, or it waits on the queue. *)
Inductive outcome (R A : Type) : Type :=
| Continue (a : A) (s : State)
| Returns (r : R) (s : State)
| Panics (p : panic) (s : State)
| Waits (s : State).

Arguments Continue {R A} a s.
Arguments Returns {R A} r s.
Arguments Panics {R A} p s.
Arguments Waits {R A} s.

Definition stmt (R A : Type) : Type := State → outcome R A.

#[export] Instance stmt_ret {R} : MRet (stmt R) := λ A a s, Continue a s.

#[export] Instance stmt_bind {R} : MBind (stmt R) := λ A B k m s,
  match m s with
  | Continue a s' => k a s'
  | Returns r s' => Returns r s'
  | Panics p s' => Panics p s'
  | Waits s' => Waits s'
  end.

(** [return r] *)
Definition return_ {R A} (r : R) : stmt R A := λ s, Returns r s.

(** [panic] *)
Definition raise {R A} (p : panic) : stmt R A := λ s, Panics p s.

(** [if cond { body }] *)
Definition when {R} (cond : bool) (body : stmt R unit) : stmt R unit :=
  if cond then body else mret ().

(** Calling a function: its return value is the value of the call. *)
Definition invoke_fn {R R'} (f : stmt R R) : stmt R' R := λ s,
  match f s with
  | Continue r s' | Returns r s' => Continue r s'
  | Panics p s' => Panics p s'
  | Waits s' => Waits s'
  end.

(** The state in which a block ended. *)
Definition final {R A} (o : outcome R A) : State :=
  match o with
  | Continue _ s | Returns _ s | Panics _ s | Waits s => s
  end.

(** A round trip to the platform. *)
Definition invoke {R} (c : call Deployment) : stmt R (resp c) := λ s,
  let '(r, w) := api c (world s) in
  Continue r
    {| world := w; heap := heap s; queue := queue s;
       trace := trace s ++ [Called c r] |}.

Definition log {R} (l : log_entry) : stmt R unit := λ s,
  Continue ()
    {| world := world s; heap := heap s; queue := queue s;
       trace := trace s ++ [Logged l] |}.

(** Reading through a pointer; a pointer to nothing panics. *)
Definition load {R} (p : loc) : stmt R (Function Deployment) := λ s,
  match heap s !! p with
  | Some f => Continue f s
  | None => Panics NilDereference s
  end.

(** Writing through a pointer. *)
Definition store {R} (p : loc) (f : Function Deployment) : stmt R unit := λ s,
  match heap s !! p with
  | Some _ =>
      Continue ()
        {| world := world s; heap := <[p := f]> (heap s); queue := queue s;
           trace := trace s |}
  | None => Panics NilDereference s
  end.

(** An operation of the queue. *)
Definition on_queue {R} (op : Queue → Queue) : stmt R unit := λ s,
  Continue ()
    {| world := world s; heap := heap s; queue := op (queue s);
       trace := trace s |}.

(** [c.queue.NumRequeues(key)] *)
Definition queue_NumRequeues {R} (key : string) : stmt R nat := λ s,
  Continue (NumRequeues key (queue s)) s.

(** [key, quit := c.queue.Get()] *)
Definition queue_Get {R} : stmt R (string * bool) := λ s,
  match Get (queue s) with
  | GetItem key q =>
      Continue (key, false)
        {| world := world s; heap := heap s; queue := q; trace := trace s |}
  | GetShutdown => Continue ("", true) s
  | GetWait => Waits s
  end.

(** [defer d] followed by the rest of the function: [d] runs when the rest
    returns and when it panics. *)
Definition defer {R A} (d : Queue → Queue) (rest : stmt R A) : stmt R A := λ s,
  let after s' :=
    {| world := world s'; heap := heap s'; queue := d (queue s');
       trace := trace s' |} in
  match rest s with
  | Continue a s' => Continue a (after s')
  | Returns r s' => Returns r (after s')
  | Panics p s' => Panics p (after s')
  | Waits s' => Waits s'
  end.

(** [if err != nil { return err }] *)
Definition check {E} (err : option E) : stmt (option E) unit :=
  match err with
  | Some _ => return_ err
  | None => mret ()
  end.

(** [if err != nil && !k8sErrors.IsNotFound(err) { return err }] *)
Definition check_fatal (err : option error) : stmt (option error) unit :=
  if fatal err then return_ err else mret ().

(** [xs[0]]: indexing an empty slice panics. *)
Definition index0 {R A} (xs : list A) : stmt R A :=
  match xs !! 0 with
  | Some x => mret x
  | None => raise IndexOutOfRange
  end.

(** [for _, x := range items { body }] *)
Fixpoint range {R A} (items : list A) (body : A → stmt R unit) : stmt R unit :=
  match items with
  | [] => mret ()
  | x :: rest => body x;; range rest body
  end.

(** *** getResouceGroupVersion (lines 182-200) *)

(** The inner loop (lines 189-194): the first resource named [target]
    sets the group version and leaves the loop. *)
Fixpoint scan_APIResources (target : string) (resource : APIResourceList)
    (apiResources : list APIResource) (groupVersion : string) : string :=
  match apiResources with
  | [] => groupVersion
  | apiResource :: rest =>
      if String.eqb (ar_Name apiResource) target then GroupVersion resource
      else scan_APIResources target resource rest groupVersion
  end.

(** The outer loop (lines 188-195) runs over every list. *)
Fixpoint scan_resources (target : string) (resources : list APIResourceList)
    (groupVersion : string) : string :=
  match resources with
  | [] => groupVersion
  | resource :: rest =>
      scan_resources target rest
        (scan_APIResources target resource (APIResources resource) groupVersion)
  end.

Definition getResouceGroupVersion (target : string)
  : stmt (string * option error) (string * option error) :=
  r ← invoke ServerResources;
  match r with
  | inl err => return_ ("", Some err)
  | inr resources =>
      let groupVersion := scan_resources target resources "" in
      if String.eqb groupVersion "" then
        return_ ("", Some (Errorf ("Resource " +:+ target +:+ " not found in any group")))
      else return_ (groupVersion, None)
  end.

(** *** deleteAutoscale (lines 278-292) *)

Definition deleteAutoscale (c : Controller) (ns name : string)
  : stmt (option error) (option error) :=
  when (bool_decide (smclient c ≠ None))
    (err ← invoke (DeleteServiceMonitor name ns);
     check_fatal err);;
  err ← invoke (DeleteAutoscale name ns);
  check_fatal err;;
  return_ None.

(** *** ensureK8sResources (lines 203-276) *)

Definition ensureK8sResources (c : Controller) (funcObj : loc)
  : stmt (option error) (option error) :=
  f ← load funcObj;
  when (len_map (Labels (fn_ObjectMeta f)) =? 0)%nat
    (store funcObj (set_Labels (Some ∅) f));;
  f ← load funcObj;
  match Labels (fn_ObjectMeta f) with
  | Some labels =>
      store funcObj
        (set_Labels (Some (<["function" := Name (fn_ObjectMeta f)]> labels)) f)
  | None => raise NilMapAssignment
  end;;
  match Data (config c) !! "deployment" with
  | Some deploymentConfigData =>
      match Unmarshal deploymentConfigData with
      | inl err => log (LogParseError err);; return_ (Some err)
      | inr deployment =>
          f ← load funcObj;
          let '(merged, err) :=
            MergeDeployments (spec_Deployment (fn_Spec f)) deployment in
          store funcObj (set_Deployment merged f);;
          match err with
          | Some e => log (LogMergeError e);; return_ err
          | None => mret ()
          end
      end
  | None => mret ()
  end;;
  f ← load funcObj;
  ors ← match GetOwnerReference f with
        | inl err => return_ (Some err)
        | inr ors => mret ors
        end;
  err ← invoke (EnsureFuncConfigMap f ors);
  check err;;
  err ← invoke (EnsureFuncService f ors);
  check err;;
  err ← invoke (EnsureFuncDeployment f ors);
  check err;;
  when (String.eqb (spec_Type (fn_Spec f)) "Scheduled")
    ('(groupVersion, err) ← invoke_fn (getResouceGroupVersion "cronjobs");
     check err;;
     err ← invoke (EnsureFuncCronJob f ors groupVersion);
     check err);;
  (if negb (String.eqb (Name (hpa_ObjectMeta (spec_HorizontalPodAutoscaler (fn_Spec f)))) "")
      && negb (String.eqb (ScaleTargetRef_Name (hpa_Spec (spec_HorizontalPodAutoscaler (fn_Spec f)))) "")
   then
     store funcObj (set_hpa_OwnerReferences ors f);;
     f ← load funcObj;
     metric ← index0 (Metrics (hpa_Spec (spec_HorizontalPodAutoscaler (fn_Spec f))));
     when (String.eqb (ms_Type metric) ObjectMetricSourceType)
       (match smclient c with
        | Some _ => mret ()
        | None => raise NilDereference
        end;;
        err ← invoke (CreateServiceMonitor f (Namespace (fn_ObjectMeta f)) ors);
        check err);;
     err ← invoke (CreateAutoscale (spec_HorizontalPodAutoscaler (fn_Spec f)));
     check err
   else
     err ← invoke_fn
             (deleteAutoscale c (Namespace (fn_ObjectMeta f)) (Name (fn_ObjectMeta f)));
     check_fatal err);;
  return_ None.

(** *** deleteK8sResources (lines 295-330) *)

Definition deleteK8sResources (c : Controller) (ns name : string)
  : stmt (option error) (option error) :=
  err ← invoke (CronJobs_Get ns (Sprintf_trigger name));
  when (bool_decide (err = None))
    (err ← invoke (CronJobs_Delete ns (Sprintf_trigger name));
     check_fatal err);;
  let deletePolicy := DeletePropagationBackground in
  err ← invoke (Deployments_Delete ns name deletePolicy);
  check_fatal err;;
  err ← invoke (Services_Delete ns name);
  check_fatal err;;
  err ← invoke (ConfigMaps_Delete ns name);
  check_fatal err;;
  err ← invoke_fn (deleteAutoscale c ns name);
  check_fatal err;;
  return_ None.

(** *** processItem (lines 332-365) *)

Definition processItem (c : Controller) (key : string)
  : stmt (option error) (option error) :=
  log (LogProcessing key);;
  '(ns, name) ← match SplitMetaNamespaceKey key with
                | inl err => return_ (Some err)
                | inr parts => mret parts
                end;
  r ← invoke (GetByKey key);
  match r with
  | inl err =>
      return_ (Some (Errorf ("Error fetching object with key " +:+ key
                             +:+ " from store: " +:+ Error err)))
  | inr None =>
      err ← invoke_fn (deleteK8sResources c ns name);
      match err with
      | Some e => log (LogCantDelete e);; return_ err
      | None => log (LogDeleted key);; return_ None
      end
  | inr (Some funcObj) =>
      err ← invoke_fn (ensureK8sResources c funcObj);
      match err with
      | Some e => log (LogCantUpdate e);; return_ err
      | None => log (LogUpdated key);; return_ None
      end
  end.

(** *** processNextItem (lines 158-180) *)

Definition processNextItem (c : Controller) : stmt bool bool :=
  '(key, quit) ← queue_Get;
  if quit : bool then return_ false
  else
    defer (Done key)
      (err ← invoke_fn (processItem c key);
       match err with
       | None => on_queue (Forget key)
       | Some e =>
           n ← queue_NumRequeues key;
           if (n <? maxRetries)%nat then
             log (LogWillRetry key e);;
             on_queue (AddRateLimited key)
           else
             log (LogGivingUp key e);;
             on_queue (Forget key);;
             log (HandleError e)
       end;;
       return_ true).

(** *** runWorker (lines 152-156)

    [for c.processNextItem() { }]: the loop goes on for as long as a round
    answers true.  The worker is not alone with the queue and the loop has
    no bound of its own: [schedule] lists, round by round, what the rest
    of the program does to the queue before the worker's next [Get] is
    served.  A [Get] that finds nothing pending on a queue that is not
    shut down blocks, and is served in a later round, once the queue has
    changed.  The worker returns when a round answers false, and falls
    through when the schedule ends with the loop still going. *)
Fixpoint runWorker (schedule : list (list interference)) (c : Controller)
  : stmt unit unit :=
  match schedule with
  | [] => mret ()
  | batch :: schedule =>
      on_queue (λ q, foldl (λ q i, interfere i q) q batch);;
      ((λ s, match processNextItem c s with
             | Continue more s' | Returns more s' =>
                 if more : bool then runWorker schedule c s' else Returns () s'
             | Panics p s' => Panics p s'
             | Waits s' => runWorker schedule c s'
             end) : stmt unit unit)
  end.

(** *** The garbage-collection sweep (lines 367-448) *)

Definition collectServices (c : Controller) : stmt (option error) (option error) :=
  r ← invoke Services_List;
  match r with
  | inl err => return_ (Some err)
  | inr srvs =>
      range srvs (λ srv,
        if (length (OwnerReferences srv) =? 0)%nat then mret () (* continue *)
        else
          owner ← index0 (OwnerReferences srv);
          when (String.eqb (or_Kind owner) funcKind
                && String.eqb (or_APIVersion owner) funcAPI)
            (let key := Sprintf_key (Namespace srv) (or_Name owner) in
             on_queue (Add key)));;
      return_ None
  end.

Definition collectDeployment (c : Controller) : stmt (option error) (option error) :=
  r ← invoke Deployments_List;
  match r with
  | inl err => return_ (Some err)
  | inr ds =>
      range ds (λ d,
        if (length (OwnerReferences d) =? 0)%nat then mret () (* continue *)
        else
          owner ← index0 (OwnerReferences d);
          when (String.eqb (or_Kind owner) funcKind
                && String.eqb (or_APIVersion owner) funcAPI)
            (let key := Sprintf_key (Namespace d) (or_Name owner) in
             on_queue (Add key)));;
      return_ None
  end.

Definition collectConfigMap (c : Controller) : stmt (option error) (option error) :=
  r ← invoke ConfigMaps_List;
  match r with
  | inl err => return_ (Some err)
  | inr cm =>
      range cm (λ m,
        if (length (OwnerReferences m) =? 0)%nat then mret () (* continue *)
        else
          owner ← index0 (OwnerReferences m);
          when (String.eqb (or_Kind owner) funcKind
                && String.eqb (or_APIVersion owner) funcAPI)
            (let key := Sprintf_key (Namespace m) (or_Name owner) in
             on_queue (Add key)));;
      return_ None
  end.

Definition garbageCollect (c : Controller) : stmt (option error) (option error) :=
  err ← invoke_fn (collectServices c);
  check err;;
  err ← invoke_fn (collectDeployment c);
  check err;;
  err ← invoke_fn (collectConfigMap c);
  check err;;
  return_ None.

End Controller.

Arguments Continue {Deployment _ R A} a s.
Arguments Returns {Deployment _ R A} r s.
Arguments Panics {Deployment _ R A} p s.
Arguments Waits {Deployment _ R A} s.

(** ** Reading a trace *)

Section Observations.

Context {Deployment : Type}.

(** The error a round trip answered, if any. *)
Definition answered_error (c : call Deployment) : resp c → option error :=
  match c with
  | Services_List | Deployments_List | ConfigMaps_List =>
      λ r, match r with inl e => Some e | inr _ => None end
  | ServerResources => λ r, match r with inl e => Some e | inr _ => None end
  | GetByKey _ => λ r, match r with inl e => Some e | inr _ => None end
  | _ => λ r, r
  end.

Definition event_error (ev : event Deployment) : option error :=
  match ev with
  | Called c r => answered_error c r
  | Logged _ => None
  end.

(** The round trips that delete an object of the platform. *)
Definition is_delete (c : call Deployment) : bool :=
  match c with
  | CronJobs_Delete _ _ | Deployments_Delete _ _ _ | Services_Delete _ _
  | ConfigMaps_Delete _ _ | DeleteServiceMonitor _ _ | DeleteAutoscale _ _ => true
  | _ => false
  end.

(** The round trips that create or update an object of the platform. *)
Definition is_ensure (c : call Deployment) : bool :=
  match c with
  | EnsureFuncConfigMap _ _ | EnsureFuncService _ _ | EnsureFuncDeployment _ _
  | EnsureFuncCronJob _ _ _ | CreateServiceMonitor _ _ _ | CreateAutoscale _ => true
  | _ => false
  end.

(** The round trips of a trace, in order. *)
Definition calls (tr : list (event Deployment)) : list (call Deployment) :=
  omap (λ ev, match ev with Called c _ => Some c | Logged _ => None end) tr.

(** The lines logged in a trace, in order. *)
Definition logged (tr : list (event Deployment)) : list log_entry :=
  omap (λ ev, match ev with Logged l => Some l | Called _ _ => None end) tr.

Definition is_delete_event (ev : event Deployment) : bool :=
  match ev with
  | Called c _ => is_delete c
  | Logged _ => false
  end.

Definition is_ensure_event (ev : event Deployment) : bool :=
  match ev with
  | Called c _ => is_ensure c
  | Logged _ => false
  end.

(** The three cluster-wide listings. *)
Definition is_list (c : call Deployment) : bool :=
  match c with
  | Services_List | Deployments_List | ConfigMaps_List => true
  | _ => false
  end.

(** The probe for a scheduled-job object. *)
Definition is_cronjob_get (c : call Deployment) : bool :=
  match c with
  | CronJobs_Get _ _ => true
  | _ => false
  end.

Definition is_cronjob_delete (c : call Deployment) : bool :=
  match c with
  | CronJobs_Delete _ _ => true
  | _ => false
  end.

(** The metrics-monitor object and the autoscaling object. *)
Definition is_autoscale_ensure (c : call Deployment) : bool :=
  match c with
  | CreateServiceMonitor _ _ _ | CreateAutoscale _ => true
  | _ => false
  end.

(** The three objects every Function has: configuration object, service
    and deployment. *)
Definition is_core_ensure (c : call Deployment) : bool :=
  match c with
  | EnsureFuncConfigMap _ _ | EnsureFuncService _ _ | EnsureFuncDeployment _ _ => true
  | _ => false
  end.

(** The Function a resource builder was handed. *)
Definition builder_input (c : call Deployment) : option (Function Deployment) :=
  match c with
  | EnsureFuncConfigMap f _ | EnsureFuncService f _ | EnsureFuncDeployment f _
  | EnsureFuncCronJob f _ _ | CreateServiceMonitor f _ _ => Some f
  | _ => None
  end.

(** The objects a listing answered. *)
Definition listed_by (c : call Deployment) : resp c → list ObjectMeta :=
  match c with
  | Services_List | Deployments_List | ConfigMaps_List =>
      λ r, match r with inr items => items | inl _ => [] end
  | _ => λ _, []
  end.

(** All the objects the listings of a trace answered, in order. *)
Definition listed (tr : list (event Deployment)) : list ObjectMeta :=
  mjoin ((λ ev, match ev with
                | Called c r => listed_by c r
                | Logged _ => []
                end) <$> tr).

(** The three core objects in the order configuration object, service,
    deployment, for one Function and one owner reference; or a beginning
    of that. *)
Definition core_order (core : list (call Deployment)) : Prop :=
  core = [] ∨
  ∃ f ors,
    core `prefix_of`
      [EnsureFuncConfigMap f ors; EnsureFuncService f ors;
       EnsureFuncDeployment f ors].

End Observations.

(** ** What a run is expected to ask of the platform *)

Section Plans.

Context {Deployment : Type}.

(** The round trips of [deleteAutoscale] when it makes them all (lines
    279-287): the metrics monitor when the controller has a client for
    it, then the autoscaler. *)
Definition autoscale_plan (c : Controller) (ns name : string)
  : list (call Deployment) :=
  match smclient c with
  | Some _ => [DeleteServiceMonitor name ns; DeleteAutoscale name ns]
  | None => [DeleteAutoscale name ns]
  end.

(** The round trips of the delete path when it makes them all (lines
    297-324): the probe; the scheduled job when the probe found it; the
    deployment, in the background; the service; the configuration object;
    and what [deleteAutoscale] asks. *)
Definition delete_plan (c : Controller) (ns name : string) (found : bool)
  : list (call Deployment) :=
  CronJobs_Get ns (Sprintf_trigger name)
  :: (if found then [CronJobs_Delete ns (Sprintf_trigger name)] else [])
  ++ [Deployments_Delete ns name DeletePropagationBackground;
      Services_Delete ns name; ConfigMaps_Delete ns name]
  ++ autoscale_plan c ns name.

(** The test of line 255: the autoscaling specification names its object
    and its scale target. *)
Definition names_autoscaler (f : Function Deployment) : bool :=
  negb (String.eqb (Name (hpa_ObjectMeta (spec_HorizontalPodAutoscaler (fn_Spec f)))) "")
  && negb (String.eqb (ScaleTargetRef_Name (hpa_Spec (spec_HorizontalPodAutoscaler (fn_Spec f)))) "").

(** The discovery round trip. *)
Definition is_discovery (c : call Deployment) : bool :=
  match c with
  | ServerResources => true
  | _ => false
  end.

(** The scheduled-job object. *)
Definition is_cronjob_ensure (c : call Deployment) : bool :=
  match c with
  | EnsureFuncCronJob _ _ _ => true
  | _ => false
  end.

(** The resource lists a trace shows discovery to have answered, in
    order. *)
Definition discovered (tr : list (event Deployment)) : list (list APIResourceList) :=
  omap (λ ev, match ev with
              | Called ServerResources (inr resources) => Some resources
              | _ => None
              end) tr.

(** The key an interference may make pending. *)
Definition arrival (i : interference) : option string :=
  match i with
  | Enqueued key | BackoffElapsed key => Some key
  | Stopped => None
  end.

(** The interference that shuts the queue down. *)
Definition stops (i : interference) : bool :=
  match i with
  | Stopped => true
  | _ => false
  end.

(** The keys whose processing a trace records, in order: one for every
    line "Processing change to Function". *)
Definition processed (tr : list (event Deployment)) : list string :=
  omap (λ l, match l with LogProcessing key => Some key | _ => None end)
    (logged tr).

End Plans.

(** ** The properties in the specification's words *)

(** The key the sweep owes an object: [namespace/ownerName] when the
    owner-reference list is not empty and its first entry has kind
    "Function" and api-group "kubeless.io". *)
Definition owner_key (o : ObjectMeta) : option string :=
  match OwnerReferences o with
  | owner :: _ =>
      if decide (or_Kind owner = "Function" ∧ or_APIVersion owner = "kubeless.io")
      then Some (Namespace o +:+ "/" +:+ or_Name owner)
      else None
  | [] => None
  end.

(** The keys the sweep owes a list of objects, in order. *)
Definition sweep_keys (objs : list ObjectMeta) : list string :=
  omap owner_key objs.

(** Enqueueing keys one after the other. *)
Definition enqueue_all (keys : list string) (q : Queue) : Queue :=
  foldl (λ q key, Add key q) q keys.

(** A discovered list contains a resource named [target]. *)
Definition contains_resource (target : string) (l : APIResourceList) : bool :=
  bool_decide (target ∈ ar_Name <$> APIResources l).

(** The last discovered list that contains a resource named [target]. *)
Definition last_match (target : string) (resources : list APIResourceList)
  : option APIResourceList :=
  last (filter (λ l, contains_resource target l = true) resources).

(** ** Runs of the worker, for stating what it does *)

Section Runs.

Context {Deployment : Type} `{!Platform Deployment}.

(** The state with one more event. *)
Definition with_event (ev : event Deployment) (s : State) : State :=
  {| world := world s; heap := heap s; queue := queue s;
     trace := trace s ++ [ev] |}.

(** The state with another queue. *)
Definition with_queue (q : Queue) (s : State) : State :=
  {| world := world s; heap := heap s; queue := q; trace := trace s |}.

(** [attempt_of path on_error on_success o]: the processing attempt [o]
    is the run [path] of the invoked path followed by one log line; the
    attempt's error result is the path's. *)
Definition attempt_of (path : outcome (option error) (option error))
    (on_error : error → log_entry) (on_success : log_entry)
    (o : outcome (option error) (option error)) : Prop :=
  match path with
  | Returns (Some e) s' => o = Returns (Some e) (with_event (Logged (on_error e)) s')
  | Returns None s' => o = Returns None (with_event (Logged on_success) s')
  | Panics p s' => o = Panics p s'
  | Continue _ _ | Waits _ => False
  end.

(** A function ended: it returned or it panicked. *)
Definition returns_or_panics {R A} (o : outcome R A) : Prop :=
  match o with
  | Returns _ _ | Panics _ _ => True
  | Continue _ _ | Waits _ => False
  end.

(** The next attempt of the worker fails: the queue delivers [key] and
    processing it returns an error. *)
Definition attempt_fails (c : Controller) (key : string) (s : State) : Prop :=
  ∃ q e s',
    Get (queue s) = GetItem key q ∧
    processItem c key (with_queue q s) = Returns (Some e) s'.

(** One round of the worker, after which every backoff elapses. *)
Definition attempt_cycle (c : Controller) (s : State) : State :=
  let s' := final (processNextItem c s) in
  with_queue (all_backoffs_elapsed (queue s')) s'.

(** [wp m Q s]: running [m] from [s] ends in an outcome that satisfies
    [Q]. *)
Definition wp {R A} (m : stmt R A) (Q : outcome R A → Prop) (s : State) : Prop :=
  Q (m s).

(** The body the three collectors share, up to the name of the loop
    variable. *)
Definition requeue_owner {R} (obj : ObjectMeta) : stmt R unit :=
  if (length (OwnerReferences obj) =? 0)%nat then mret ()
  else
    owner ← index0 (OwnerReferences obj);
    when (String.eqb (or_Kind owner) funcKind
          && String.eqb (or_APIVersion owner) funcAPI)
      (let key := Sprintf_key (Namespace obj) (or_Name owner) in
       on_queue (Add key)).

End Runs.

(** ** A scripted platform

    A platform whose answers are fixed in advance, for running the
    controller on concrete inputs.  Deployments are carried as text. *)

(** [strings.Split(key, "/")] *)
Fixpoint split_slash (acc key : string) : list string :=
  match key with
  | EmptyString => [acc]
  | String a rest =>
      if Ascii.eqb a "/"%char then acc :: split_slash "" rest
      else split_slash (acc +:+ String a "") rest
  end.

(** The behaviour of client-go's [cache.SplitMetaNamespaceKey]: a name, or
    a namespace and a name; anything else is an unexpected key format. *)
Definition split_key (key : string) : error + (string * string) :=
  match split_slash "" key with
  | [name] => inr ("", name)
  | [ns; name] => inr (ns, name)
  | _ => inl (Errorf ("unexpected key format: " +:+ key))
  end.

Definition function_owner (f : Function string) : list OwnerReference :=
  [{| or_APIVersion := "kubeless.io"; or_Kind := "Function";
      or_Name := Name (fn_ObjectMeta f); or_UID := "uid" |}].

#[export] Instance scripted : Platform string := {|
  World := ∀ c : call string, resp c;
  api c w := (w c, w);
  SplitMetaNamespaceKey := split_key;
  Unmarshal data := inr data;
  MergeDeployments destination source := (destination, None);
  GetOwnerReference f := inr (function_owner f)
|}.

(** Nothing exists and nothing fails: listings and discovery are empty,
    the store has no key, every other round trip answers nil. *)
Definition quiet : ∀ c : call string, resp c := λ c,
  match c with
  | Services_List | Deployments_List | ConfigMaps_List => inr []
  | ServerResources => inr []
  | GetByKey _ => inr None
  | _ => None
  end.

(** Nothing exists: every get and delete answers not-found. *)
Definition vacant : ∀ c : call string, resp c := λ c,
  match c with
  | Services_List | Deployments_List | ConfigMaps_List => inr []
  | ServerResources => inr []
  | GetByKey _ => inr None
  | EnsureFuncConfigMap _ _ | EnsureFuncService _ _ | EnsureFuncDeployment _ _
  | EnsureFuncCronJob _ _ _ | CreateServiceMonitor _ _ _ | CreateAutoscale _ => None
  | _ => Some (StatusNotFound "not found")
  end.

Definition empty_queue : Queue :=
  {| pending := []; dirty := ∅; processing := ∅; waiting := [];
     failures := ∅; shuttingDown := false |}.

(** A controller with a metrics-monitor client and no deployment
    override. *)
Definition plain_controller : Controller :=
  {| smclient := Some MonitoringClient; config := {| Data := ∅ |} |}.

(** The machine at start-up on a given platform. *)
Definition boot (w : ∀ c : call string, resp c) : State :=
  {| world := w; heap := ∅; queue := empty_queue; trace := [] |}.

(** Discovery answers the given lists; otherwise as [quiet]. *)
Definition discovering (lists : list APIResourceList) : ∀ c : call string, resp c :=
  λ c,
  match c with
  | Services_List | Deployments_List | ConfigMaps_List => inr []
  | ServerResources => inr lists
  | GetByKey _ => inr None
  | _ => None
  end.

(** The listings answer the given objects; otherwise as [quiet]. *)
Definition listing (services deployments configmaps : list ObjectMeta)
  : ∀ c : call string, resp c :=
  λ c,
  match c with
  | Services_List => inr services
  | Deployments_List => inr deployments
  | ConfigMaps_List => inr configmaps
  | ServerResources => inr []
  | GetByKey _ => inr None
  | _ => None
  end.

(** The store holds one Function, under the key [default/f]; otherwise as
    [quiet]. *)
Definition storing (funcObj : loc) : ∀ c : call string, resp c :=
  λ c,
  match c with
  | Services_List | Deployments_List | ConfigMaps_List => inr []
  | ServerResources => inr []
  | GetByKey key => inr (if String.eqb key "default/f" then Some funcObj else None)
  | _ => None
  end.

(** The probe for the scheduled job times out; otherwise as [quiet]. *)
Definition probe_times_out : ∀ c : call string, resp c := λ c,
  match c with
  | Services_List | Deployments_List | ConfigMaps_List => inr []
  | ServerResources => inr []
  | GetByKey _ => inr None
  | CronJobs_Get _ _ => Some (StatusError "context deadline exceeded")
  | _ => None
  end.

(** A quiet platform with one key in the queue. *)
Definition one_key (key : string) : State :=
  {| world := quiet; heap := ∅; queue := Add key empty_queue; trace := [] |}.

(** A quiet platform with one Function in memory. *)
Definition holding (f : Function string) : State :=
  {| world := quiet; heap := {[1%positive := f]}; queue := empty_queue;
     trace := [] |}.

(** A platform whose store holds one Function in memory under the key
    [default/f]. *)
Definition stored (f : Function string) : State :=
  {| world := storing 1%positive; heap := {[1%positive := f]};
     queue := empty_queue; trace := [] |}.

Definition no_autoscaler : HorizontalPodAutoscaler :=
  {| hpa_ObjectMeta :=
       {| Name := ""; Namespace := ""; Labels := None; OwnerReferences := [] |};
     hpa_Spec := {| ScaleTargetRef_Name := ""; Metrics := [] |} |}.

(** The Function [default/f], with no labels at all and no autoscaling. *)
Definition unlabelled : Function string :=
  {| fn_ObjectMeta :=
       {| Name := "f"; Namespace := "default"; Labels := None;
          OwnerReferences := [] |};
     fn_Spec :=
       {| spec_Type := "HTTP"; spec_Deployment := "";
          spec_HorizontalPodAutoscaler := no_autoscaler |} |}.

(** The Function [default/f] with an autoscaling specification that names
    its target and its scale-target reference and lists no metric. *)
Definition autoscaled_without_metrics : Function string :=
  {| fn_ObjectMeta := fn_ObjectMeta unlabelled;
     fn_Spec :=
       {| spec_Type := "HTTP"; spec_Deployment := "";
          spec_HorizontalPodAutoscaler :=
            {| hpa_ObjectMeta :=
                 {| Name := "f"; Namespace := "default"; Labels := None;
                    OwnerReferences := [] |};
               hpa_Spec := {| ScaleTargetRef_Name := "f"; Metrics := [] |} |} |} |}.

(** A discovered list that has cronjobs and an empty group version. *)
Definition nameless_group : APIResourceList :=
  {| GroupVersion := ""; APIResources := [{| ar_Name := "cronjobs" |}] |}.

(** An object owned by the Function [orphan], and one owned by something
    else. *)
Definition owned_by (kind api owner ns : string) : ObjectMeta :=
  {| Name := "obj"; Namespace := ns; Labels := None;
     OwnerReferences :=
       [{| or_APIVersion := api; or_Kind := kind; or_Name := owner;
           or_UID := "uid" |}] |}.

(** A controller without a metrics-monitor client. *)
Definition unmonitored_controller : Controller :=
  {| smclient := None; config := {| Data := ∅ |} |}.

(** A controller whose configuration overrides the deployment. *)
Definition overriding_controller (data : string) : Controller :=
  {| smclient := Some MonitoringClient;
     config := {| Data := {["deployment" := data]} |} |}.

(** The Function [default/f] with an autoscaler on one metric of the given
    type. *)
Definition autoscaled_on (metric : string) : Function string :=
  {| fn_ObjectMeta := fn_ObjectMeta unlabelled;
     fn_Spec :=
       {| spec_Type := "HTTP"; spec_Deployment := "";
          spec_HorizontalPodAutoscaler :=
            {| hpa_ObjectMeta :=
                 {| Name := "f"; Namespace := "default"; Labels := None;
                    OwnerReferences := [] |};
               hpa_Spec :=
                 {| ScaleTargetRef_Name := "f";
                    Metrics := [{| ms_Type := metric |}] |} |} |} |}.

(** The Function [default/f], triggered on a schedule, with no
    autoscaling. *)
Definition scheduled : Function string :=
  {| fn_ObjectMeta := fn_ObjectMeta unlabelled;
     fn_Spec :=
       {| spec_Type := "Scheduled"; spec_Deployment := "";
          spec_HorizontalPodAutoscaler := no_autoscaler |} |}.

(** A discovered list that has cronjobs under [batch/v1beta1]. *)
Definition batch_group : APIResourceList :=
  {| GroupVersion := "batch/v1beta1";
     APIResources := [{| ar_Name := "jobs" |}; {| ar_Name := "cronjobs" |}] |}.

(** A platform on which discovery answers the given lists, with one
    Function in memory. *)
Definition holding_on (lists : list APIResourceList) (f : Function string) : State :=
  {| world := discovering lists; heap := {[1%positive := f]};
     queue := empty_queue; trace := [] |}.

(** A queue that holds the given keys and is shut down or not. *)
Definition queue_of (keys : list string) (shut : bool) : Queue :=
  {| pending := keys; dirty := list_to_set keys; processing := ∅;
     waiting := []; failures := ∅; shuttingDown := shut |}.

(** A quiet platform with the given queue. *)
Definition queued (q : Queue) : State :=
  {| world := quiet; heap := ∅; queue := q; trace := [] |}.

(** The services cannot be listed; otherwise as [quiet]. *)
Definition services_unlisted : ∀ c : call string, resp c := λ c,
  match c with
  | Services_List => inl (StatusError "forbidden")
  | Deployments_List | ConfigMaps_List => inr []
  | ServerResources => inr []
  | GetByKey _ => inr None
  | _ => None
  end.

(** As [scripted], with a parser that rejects the empty text and a merge
    that gives up on the override [replicas: many], leaving the
    destination as it was. *)
Definition brittle : Platform string := {|
  World := ∀ c : call string, resp c;
  api c w := (w c, w);
  SplitMetaNamespaceKey := split_key;
  Unmarshal data := if String.eqb data "" then inl (Errorf "EOF") else inr data;
  MergeDeployments destination source :=
    if String.eqb source "replicas: many"
    then (destination, Some (Errorf "cannot merge"))
    else (source, None);
  GetOwnerReference f := inr (function_owner f)
|}.

(** A quiet [brittle] platform with one Function in memory. *)
Definition holding_brittle (f : Function string) : @State string brittle :=
  @Build_State string brittle quiet {[1%positive := f]} empty_queue [].

(** * Properties *)

Section Properties.

Context {Deployment : Type} `{!Platform Deployment}.

(** ** Reasoning about a block, one statement at a time *)

Lemma wp_bind {R A B} (m : stmt R A) (k : A → stmt R B) Q s :
  wp m (λ o, match o with
             | Continue a s' => wp (k a) Q s'
             | Returns r s' => Q (Returns r s')
             | Panics p s' => Q (Panics p s')
             | Waits s' => Q (Waits s')
             end) s →
  wp (m ≫= k) Q s.
Proof. unfold wp, mbind, stmt_bind. by destruct (m s). Qed.

Lemma wp_ret {R A} (a : A) (Q : outcome R A → Prop) s :
  Q (Continue a s) → wp (mret a) Q s.
Proof. done. Qed.

Lemma wp_return {R A} (r : R) (Q : outcome R A → Prop) s :
  Q (Returns r s) → wp (return_ r) Q s.
Proof. done. Qed.

Lemma wp_raise {R A} p (Q : outcome R A → Prop) s :
  Q (Panics p s) → wp (raise p) Q s.
Proof. done. Qed.

Lemma wp_invoke {R} (c : call Deployment) (Q : outcome R (resp c) → Prop) s :
  (∀ r w, api c (world s) = (r, w) →
     Q (Continue r {| world := w; heap := heap s; queue := queue s;
                      trace := trace s ++ [Called c r] |})) →
  wp (invoke c) Q s.
Proof. unfold wp, invoke. destruct (api c (world s)) as [r w]. auto. Qed.

Lemma wp_log {R} l (Q : outcome R unit → Prop) s :
  Q (Continue () {| world := world s; heap := heap s; queue := queue s;
                    trace := trace s ++ [Logged l] |}) →
  wp (log l) Q s.
Proof. done. Qed.

Lemma wp_load {R} p (Q : outcome R (Function Deployment) → Prop) s :
  (∀ f, heap s !! p = Some f → Q (Continue f s)) →
  (heap s !! p = None → Q (Panics NilDereference s)) →
  wp (load p) Q s.
Proof. unfold wp, load. destruct (heap s !! p); auto. Qed.

Lemma wp_store {R} p f (Q : outcome R unit → Prop) s :
  (is_Some (heap s !! p) →
   Q (Continue () {| world := world s; heap := <[p := f]> (heap s);
                     queue := queue s; trace := trace s |})) →
  (heap s !! p = None → Q (Panics NilDereference s)) →
  wp (store p f) Q s.
Proof. unfold wp, store. destruct (heap s !! p); eauto. Qed.

Lemma wp_on_queue {R} op (Q : outcome R unit → Prop) s :
  Q (Continue () {| world := world s; heap := heap s; queue := op (queue s);
                    trace := trace s |}) →
  wp (on_queue op) Q s.
Proof. done. Qed.

Lemma wp_invoke_fn {R R'} (f : stmt R R) (Q : outcome R' R → Prop) s :
  wp f (λ o, match o with
             | Continue r s' | Returns r s' => Q (Continue r s')
             | Panics p s' => Q (Panics p s')
             | Waits s' => Q (Waits s')
             end) s →
  wp (invoke_fn f) Q s.
Proof. unfold wp, invoke_fn. by destruct (f s). Qed.

(** One statement.  A pointer that was just written reads back what was
    written. *)
Ltac wp_step :=
  lazymatch goal with
  | |- wp (mbind _ _) _ _ => apply wp_bind
  | |- wp (mret _) _ _ => apply wp_ret
  | |- wp (return_ _) _ _ => apply wp_return
  | |- wp (raise _) _ _ => apply wp_raise
  | |- wp (invoke ?c) ?Q ?s => apply (wp_invoke c Q s); intros ? ? ?
  | |- wp (log _) _ _ => apply wp_log
  | |- wp (load _) _ _ =>
      apply wp_load; cbn [heap]; rewrite ?lookup_insert_eq;
      [intros ? ?; simplify_eq | intros ?; try congruence]
  | |- wp (store _ _) _ _ =>
      apply wp_store; cbn [heap]; rewrite ?lookup_insert_eq;
      [intros _ | intros ?; try congruence]
  | |- wp (on_queue _) _ _ => apply wp_on_queue
  | |- wp (invoke_fn _) _ _ => apply wp_invoke_fn
  | |- wp (when _ _) _ _ => unfold when
  | |- wp (check _) _ _ => unfold check
  | |- wp (check_fatal _) _ _ => unfold check_fatal
  | |- wp (index0 _) _ _ => unfold index0
  | |- wp (deleteAutoscale _ _ _) _ _ => unfold deleteAutoscale
  | |- wp (getResouceGroupVersion _) _ _ => unfold getResouceGroupVersion
  | |- wp (match ?x with _ => _ end) _ _ => destruct x eqn:?
  end;
  cbv beta iota;
  cbn [world heap queue trace fn_ObjectMeta fn_Spec Labels Name Namespace
       spec_Type spec_HorizontalPodAutoscaler hpa_ObjectMeta hpa_Spec
       set_Labels set_Deployment set_hpa_OwnerReferences].

(** The events a run added, as one list. *)
Ltac flatten_trace := cbn [trace final]; rewrite <- ?app_assoc; cbn [app].

(** ** The delete path *)

(** Taking a [Forall] over an explicit list apart. *)
Ltac split_Forall H :=
  repeat match type of H with
         | Forall _ (_ :: _) =>
             let H1 := fresh in
             apply Forall_cons in H as [H1 H]
         end.

(** The position of an event in an explicit list, one case each. *)
Ltac by_position i H :=
  cbn in H;
  lazymatch type of H with
  | None = Some _ => discriminate H
  | _ => destruct i as [|i]; [cbn in H; simplify_eq | by_position i H]
  end.

(** C5.  The delete path always returns.  When none of the managed
    resources exists (every get and delete answers not-found) it returns
    success; and a delete that answers any error other than not-found is
    the last round trip of the path, its error being the path's result. *)
Theorem delete_path_tolerates_absence (c : Controller) (ns name : string) (s : State) :
  ∃ r s' tr,
    deleteK8sResources c ns name s = Returns r s' ∧
    trace s' = trace s ++ tr ∧
    (Forall (λ ev, ∃ msg, event_error ev = Some (StatusNotFound msg)) tr →
     r = None) ∧
    (∀ i ev e,
       tr !! i = Some ev → is_delete_event ev = true →
       event_error ev = Some e → IsNotFound e = false →
       r = Some e ∧ length tr = S i).
Proof.
  change (wp (deleteK8sResources c ns name) (λ o, ∃ r s' tr,
    o = Returns r s' ∧ trace s' = trace s ++ tr ∧
    (Forall (λ ev, ∃ msg, event_error ev = Some (StatusNotFound msg)) tr →
     r = None) ∧
    (∀ i ev e,
       tr !! i = Some ev → is_delete_event ev = true →
       event_error ev = Some e → IsNotFound e = false →
       r = Some e ∧ length tr = S i)) s).
  unfold deleteK8sResources.
  repeat wp_step.
  all: do 3 eexists; split; [reflexivity|]; flatten_trace; split; [reflexivity|].
  all: split;
    [ intros HF; split_Forall HF;
      repeat match goal with
             | H : ∃ _, event_error _ = _ |- _ => destruct H as [? H]; cbn in H
             end;
      simplify_eq; try done
    | intros i' ev' e' Hi Hd He Hnf; by_position i' Hi;
      cbn in *; simplify_eq; cbn in *;
      repeat match goal with
             | H : negb _ = false |- _ => apply negb_false_iff in H
             end;
      first [ congruence | auto ] ].
Qed.

(** C10.  The delete path first probes for the scheduled-job object
    [trigger-<name>].  The scheduled-job deletion is attempted when the
    probe succeeds, and only then: after any error of the probe, not-found
    or not, no scheduled-job deletion is made, nothing is logged, the path
    goes on with the deployment, and an error the path returns is the
    error of its last round trip, a delete. *)
Theorem cronjob_delete_follows_probe (c : Controller) (ns name : string) (s : State) :
  ∃ r s' (probe : option error) rest,
    deleteK8sResources c ns name s = Returns r s' ∧
    trace s' = trace s ++ Called (CronJobs_Get ns (Sprintf_trigger name)) probe :: rest ∧
    logged rest = [] ∧
    (probe = None →
     ∃ ans rest',
       rest = Called (CronJobs_Delete ns (Sprintf_trigger name)) ans :: rest') ∧
    (∀ e, probe = Some e →
       Forall (λ c', is_cronjob_delete c' = false) (calls rest) ∧
       (∃ ans rest',
          rest = Called (Deployments_Delete ns name DeletePropagationBackground) ans
                 :: rest') ∧
       (∀ e', r = Some e' →
          ∃ ev, last rest = Some ev ∧ is_delete_event ev = true ∧
                event_error ev = Some e')).
Proof.
  change (wp (deleteK8sResources c ns name) (λ o, ∃ r s' (probe : option error) rest,
    o = Returns r s' ∧
    trace s' = trace s ++ Called (CronJobs_Get ns (Sprintf_trigger name)) probe :: rest ∧
    logged rest = [] ∧
    (probe = None →
     ∃ ans rest',
       rest = Called (CronJobs_Delete ns (Sprintf_trigger name)) ans :: rest') ∧
    (∀ e, probe = Some e →
       Forall (λ c', is_cronjob_delete c' = false) (calls rest) ∧
       (∃ ans rest',
          rest = Called (Deployments_Delete ns name DeletePropagationBackground) ans
                 :: rest') ∧
       (∀ e', r = Some e' →
          ∃ ev, last rest = Some ev ∧ is_delete_event ev = true ∧
                event_error ev = Some e'))) s).
  unfold deleteK8sResources.
  repeat wp_step.
  all: do 4 eexists; split; [reflexivity|]; flatten_trace; split; [reflexivity|].
  all: split; [reflexivity|].
  all: match goal with
       | H : bool_decide (_ = None) = true |- _ =>
           apply bool_decide_eq_true in H; subst
       | H : bool_decide (_ = None) = false |- _ =>
           apply bool_decide_eq_false in H
       end.
  all: split; [intros ?; try done; eauto | intros e ?; try done; subst].
  all: split; [cbn; repeat constructor | split; [eauto|] ].
  all: intros e' ?; try done; subst.
  all: eexists; split; [reflexivity|]; split; reflexivity.
Qed.

(** ** The ensure path *)

(** C6.  The round trips of the ensure path begin with the configuration
    object, the service and the deployment, in that order; nothing else
    is called unless all three were.  An ensure step that answers an error
    is the last event of the run, and its error is what the path returns:
    no later step, scheduled job and autoscaling included, is made.  The
    three objects are ensured indeed: a run that returns success has
    ensured all three, for one Function and the owner references computed
    for it; and when the configuration object or the service is ensured
    and answers no error, the next of the three is ensured right after
    it. *)
Theorem core_objects_ensured_in_order (c : Controller) (funcObj : loc) (s : State) :
  ∃ tr,
    trace (final (ensureK8sResources c funcObj s)) = trace s ++ tr ∧
    (∃ core later,
       calls tr = core ++ later ∧ core_order core ∧
       (length core < 3 → later = []) ∧
       Forall (λ c', is_core_ensure c' = false) later) ∧
    (∀ i ev e,
       tr !! i = Some ev → is_ensure_event ev = true → event_error ev = Some e →
       ensureK8sResources c funcObj s
         = Returns (Some e) (final (ensureK8sResources c funcObj s)) ∧
       length tr = S i) ∧
    (∀ s',
       ensureK8sResources c funcObj s = Returns None s' →
       ∃ f ors later,
         GetOwnerReference f = inr ors ∧
         calls tr = EnsureFuncConfigMap f ors :: EnsureFuncService f ors
                    :: EnsureFuncDeployment f ors :: later) ∧
    (∀ i ev,
       tr !! i = Some ev → (i < 2)%nat →
       is_ensure_event ev = true → event_error ev = None →
       match tr !! S i with
       | Some (Called c' _) => is_core_ensure c' = true
       | _ => False
       end).
Proof.
  change (wp (ensureK8sResources c funcObj) (λ o, ∃ tr,
    trace (final o) = trace s ++ tr ∧
    (∃ core later,
       calls tr = core ++ later ∧ core_order core ∧
       (length core < 3 → later = []) ∧
       Forall (λ c', is_core_ensure c' = false) later) ∧
    (∀ i ev e,
       tr !! i = Some ev → is_ensure_event ev = true → event_error ev = Some e →
       o = Returns (Some e) (final o) ∧ length tr = S i) ∧
    (∀ s',
       o = Returns None s' →
       ∃ f ors later,
         GetOwnerReference f = inr ors ∧
         calls tr = EnsureFuncConfigMap f ors :: EnsureFuncService f ors
                    :: EnsureFuncDeployment f ors :: later) ∧
    (∀ i ev,
       tr !! i = Some ev → (i < 2)%nat →
       is_ensure_event ev = true → event_error ev = None →
       match tr !! S i with
       | Some (Called c' _) => is_core_ensure c' = true
       | _ => False
       end)) s).
  unfold ensureK8sResources.
  repeat wp_step.
  all: repeat match goal with H : api _ _ = _ |- _ => clear H end.
  all: eexists; split;
    [ first [ flatten_trace; reflexivity | symmetry; apply app_nil_r ] | ].
  all: split;
    [ match goal with
      | |- ∃ core later, calls ?tr = _ ∧ _ =>
          exists (take 3 (calls tr)), (drop 3 (calls tr))
      end;
      split; [symmetry; apply take_drop|]; cbn;
      split;
        [ first [ by left
                | right; do 2 eexists; eexists; cbn; reflexivity ]
        | split; [ intros; first [done | lia] | repeat constructor ] ]
    | ].
  all: split;
    [ intros i' ev' e' Hi Hens Herr; by_position i' Hi;
      cbn in Hens, Herr; simplify_eq; auto
    | ].
  all: split;
    [ intros s'' Hret;
      first [ discriminate Hret
            | eexists _, _, _; split; [eassumption|]; cbn; reflexivity ]
    | intros i' ev' Hi Hlt Hens Hnil; by_position i' Hi;
      first [ lia
            | cbn in Hens, Hnil; simplify_eq; reflexivity ] ].
Qed.

(** A map without entries, nil or not, reads as the empty map. *)
Lemma len_map_0 (m : option (gmap string string)) :
  (len_map m =? 0)%nat = true → default ∅ m = ∅.
Proof.
  destruct m as [m|]; cbn; [|done].
  intros Hsize%Nat.eqb_eq. by apply map_size_empty_iff.
Qed.

(** Assigning to a map that has entries never meets a nil map. *)
Lemma len_map_not_nil (m : option (gmap string string)) :
  (len_map m =? 0)%nat = false → m ≠ None.
Proof. by intros Hlen ->. Qed.

(** C8.  Whatever the ensure path goes on to do, the Function in the
    informer's store ends up with the label [function=<name>], its name
    unchanged and its other labels kept, also when it had no labels at
    all; and every resource builder the path calls is handed the Function
    with that label. *)
Theorem function_label_normalized (c : Controller) (funcObj : loc) (s : State)
    (f : Function Deployment) :
  heap s !! funcObj = Some f →
  ∃ f' labels tr,
    heap (final (ensureK8sResources c funcObj s)) !! funcObj = Some f' ∧
    Name (fn_ObjectMeta f') = Name (fn_ObjectMeta f) ∧
    Labels (fn_ObjectMeta f') = Some labels ∧
    labels !! "function" = Some (Name (fn_ObjectMeta f')) ∧
    (∀ k, k ≠ "function" →
          labels !! k = default ∅ (Labels (fn_ObjectMeta f)) !! k) ∧
    trace (final (ensureK8sResources c funcObj s)) = trace s ++ tr ∧
    Forall (λ c', ∀ g, builder_input c' = Some g →
                       Labels (fn_ObjectMeta g) = Some labels) (calls tr).
Proof.
  intros Hf.
  change (wp (ensureK8sResources c funcObj) (λ o, ∃ f' labels tr,
    heap (final o) !! funcObj = Some f' ∧
    Name (fn_ObjectMeta f') = Name (fn_ObjectMeta f) ∧
    Labels (fn_ObjectMeta f') = Some labels ∧
    labels !! "function" = Some (Name (fn_ObjectMeta f')) ∧
    (∀ k, k ≠ "function" →
          labels !! k = default ∅ (Labels (fn_ObjectMeta f)) !! k) ∧
    trace (final o) = trace s ++ tr ∧
    Forall (λ c', ∀ g, builder_input c' = Some g →
                       Labels (fn_ObjectMeta g) = Some labels) (calls tr)) s).
  unfold ensureK8sResources.
  repeat wp_step.
  all: try match goal with
           | H : (len_map None =? 0)%nat = false |- _ =>
               by destruct (len_map_not_nil _ H)
           end.
  all: cbn [final heap]; rewrite ?lookup_insert_eq.
  all: eexists _, _, _; split; [reflexivity|]; cbn.
  all: split; [reflexivity|]; split; [reflexivity|].
  all: split; [by rewrite lookup_insert_eq|].
  all: split;
    [ intros k Hk; rewrite lookup_insert_ne by done;
      lazymatch goal with
      | H : (len_map _ =? 0)%nat = true |- _ => by rewrite (len_map_0 _ H)
      | _ => done
      end
    | ].
  all: split;
    [ first [ flatten_trace; reflexivity | symmetry; apply app_nil_r ] | ].
  all: cbn; repeat first [apply Forall_nil_2 | apply Forall_cons_2].
  all: intros ? Hg; cbn in Hg; by simplify_eq.
Qed.

(** C2 (how the code behaves).  For a Function whose autoscaling
    specification names a target object and a scale-target reference but
    lists no metric, the ensure path never completes: either an earlier
    step fails and its error is returned, or the path reaches the read of
    the first metric and panics on the empty list, having created no
    metrics-monitor and no autoscaling object. *)
Theorem empty_metric_list_panics (c : Controller) (funcObj : loc) (s : State)
    (f : Function Deployment) :
  heap s !! funcObj = Some f →
  Name (hpa_ObjectMeta (spec_HorizontalPodAutoscaler (fn_Spec f))) ≠ "" →
  ScaleTargetRef_Name (hpa_Spec (spec_HorizontalPodAutoscaler (fn_Spec f))) ≠ "" →
  Metrics (hpa_Spec (spec_HorizontalPodAutoscaler (fn_Spec f))) = [] →
  (∃ e s', ensureK8sResources c funcObj s = Returns (Some e) s') ∨
  (∃ s' tr,
     ensureK8sResources c funcObj s = Panics IndexOutOfRange s' ∧
     trace s' = trace s ++ tr ∧
     Forall (λ c', is_autoscale_ensure c' = false) (calls tr)).
Proof.
  intros Hf Hname Htarget Hmetrics.
  change (wp (ensureK8sResources c funcObj) (λ o,
    (∃ e s', o = Returns (Some e) s') ∨
    (∃ s' tr,
       o = Panics IndexOutOfRange s' ∧ trace s' = trace s ++ tr ∧
       Forall (λ c', is_autoscale_ensure c' = false) (calls tr))) s).
  unfold ensureK8sResources.
  repeat wp_step.
  all: try match goal with
           | H : (len_map None =? 0)%nat = false |- _ =>
               by destruct (len_map_not_nil _ H)
           | H : _ !! 0 = Some _ |- _ =>
               by rewrite Hmetrics in H
           | H : negb _ && negb _ = false |- _ =>
               by apply andb_false_iff in H as [H|H];
                  apply negb_false_iff, String.eqb_eq in H
           end.
  all: first
    [ left; by eauto
    | right; eexists _, _; split; [reflexivity|];
      split; [flatten_trace; reflexivity|];
      cbn; by repeat first [apply Forall_nil_2 | apply Forall_cons_2] ].
Qed.

(** ** Processing one key *)

Lemma calls_app (tr1 tr2 : list (event Deployment)) :
  calls (tr1 ++ tr2) = calls tr1 ++ calls tr2.
Proof. apply omap_app. Qed.

(** The delete path always returns, touches neither the queue nor the
    store, logs nothing, probes for the scheduled job and ensures
    nothing. *)
Lemma delete_path_shape (c : Controller) (ns name : string) (s : State) :
  ∃ r s' tr,
    deleteK8sResources c ns name s = Returns r s' ∧
    trace s' = trace s ++ tr ∧ queue s' = queue s ∧ heap s' = heap s ∧
    existsb is_cronjob_get (calls tr) = true ∧
    existsb is_ensure (calls tr) = false.
Proof.
  change (wp (deleteK8sResources c ns name) (λ o, ∃ r s' tr,
    o = Returns r s' ∧
    trace s' = trace s ++ tr ∧ queue s' = queue s ∧ heap s' = heap s ∧
    existsb is_cronjob_get (calls tr) = true ∧
    existsb is_ensure (calls tr) = false) s).
  unfold deleteK8sResources.
  repeat wp_step.
  all: eexists _, _, _; split; [reflexivity|].
  all: split; [flatten_trace; reflexivity|]; by cbn.
Qed.

(** The ensure path returns or panics, leaves the queue alone and never
    probes for a scheduled job. *)
Lemma ensure_path_shape (c : Controller) (funcObj : loc) (s : State) :
  ∃ tr,
    returns_or_panics (ensureK8sResources c funcObj s) ∧
    trace (final (ensureK8sResources c funcObj s)) = trace s ++ tr ∧
    queue (final (ensureK8sResources c funcObj s)) = queue s ∧
    existsb is_cronjob_get (calls tr) = false.
Proof.
  change (wp (ensureK8sResources c funcObj) (λ o, ∃ tr,
    returns_or_panics o ∧
    trace (final o) = trace s ++ tr ∧
    queue (final o) = queue s ∧
    existsb is_cronjob_get (calls tr) = false) s).
  unfold ensureK8sResources.
  repeat wp_step.
  all: eexists; split; [exact I|].
  all: split;
    [ first [ flatten_trace; reflexivity | symmetry; apply app_nil_r ] | ].
  all: by cbn.
Qed.

(** What [processItem] does, read off its text: the first log line, the
    key split, the lookup, then one of the two paths and a last log
    line. *)
Lemma processItem_run (c : Controller) (key : string) (s : State) :
  processItem c key s =
  match SplitMetaNamespaceKey key with
  | inl err => Returns (Some err) (with_event (Logged (LogProcessing key)) s)
  | inr (ns, name) =>
      let '(r, w) := api (GetByKey key) (world s) in
      let looked_up :=
        {| world := w; heap := heap s; queue := queue s;
           trace := trace s ++ [Logged (LogProcessing key);
                                Called (GetByKey key) r] |} in
      match r return outcome (option error) (option error) with
      | inl err =>
          Returns (Some (Errorf ("Error fetching object with key " +:+ key
                                 +:+ " from store: " +:+ Error err))) looked_up
      | inr None =>
          match deleteK8sResources c ns name looked_up with
          | Continue (Some e) s' | Returns (Some e) s' =>
              Returns (Some e) (with_event (Logged (LogCantDelete e)) s')
          | Continue None s' | Returns None s' =>
              Returns None (with_event (Logged (LogDeleted key)) s')
          | Panics p s' => Panics p s'
          | Waits s' => Waits s'
          end
      | inr (Some funcObj) =>
          match ensureK8sResources c funcObj looked_up with
          | Continue (Some e) s' | Returns (Some e) s' =>
              Returns (Some e) (with_event (Logged (LogCantUpdate e)) s')
          | Continue None s' | Returns None s' =>
              Returns None (with_event (Logged (LogUpdated key)) s')
          | Panics p s' => Panics p s'
          | Waits s' => Waits s'
          end
      end
  end.
Proof.
  unfold processItem, mbind, stmt_bind, log, invoke, invoke_fn.
  destruct (SplitMetaNamespaceKey key) as [err|[ns name]]; [done|].
  cbn [mret stmt_ret world heap queue trace].
  destruct (api (GetByKey key) (world s)) as [r w].
  rewrite <- app_assoc. cbn [app].
  destruct r as [err|[funcObj|]]; [done| |].
  - by destruct (ensureK8sResources c funcObj _) as [[]|[]| |].
  - by destruct (deleteK8sResources c ns name _) as [[]|[]| |].
Qed.

(** C4.  For a well-formed key, after the lookup in the informer's store:
    when the key is absent the attempt is the delete path for its
    namespace and name, when it is present the attempt is the ensure path
    on the stored declaration; either way the attempt ends as the path
    ends, with the path's error.  The probe that opens the delete path
    occurs in the attempt exactly when the key is absent, and nothing is
    created or updated unless the key is present. *)
Theorem processItem_dispatch (c : Controller) (key ns name : string) (s : State)
    (r : error + option loc) (w : World) :
  SplitMetaNamespaceKey key = inr (ns, name) →
  api (GetByKey key) (world s) = (r, w) →
  let looked_up :=
    {| world := w; heap := heap s; queue := queue s;
       trace := trace s ++ [Logged (LogProcessing key); Called (GetByKey key) r] |} in
  let attempt := processItem c key s in
  (r = inr None →
   attempt_of (deleteK8sResources c ns name looked_up)
     LogCantDelete (LogDeleted key) attempt) ∧
  (∀ funcObj, r = inr (Some funcObj) →
   attempt_of (ensureK8sResources c funcObj looked_up)
     LogCantUpdate (LogUpdated key) attempt) ∧
  ∃ tr,
    trace (final attempt) = trace s ++ tr ∧
    (existsb is_cronjob_get (calls tr) = true ↔ r = inr None) ∧
    (existsb is_ensure (calls tr) = true → ∃ funcObj, r = inr (Some funcObj)).
Proof.
  intros Hsplit Hapi looked_up attempt.
  assert (Hrun := processItem_run c key s).
  rewrite Hsplit, Hapi in Hrun. cbv zeta in Hrun.
  fold looked_up attempt in Hrun.
  destruct r as [err|[funcObj|]].
  - (* the lookup failed: neither path *)
    split; [done|]. split; [done|].
    exists [Logged (LogProcessing key); Called (GetByKey key) (inl err)].
    rewrite Hrun. by cbn.
  - (* present: the ensure path *)
    destruct (ensure_path_shape c funcObj looked_up)
      as (tr & Hend & Htr & _ & Hprobe).
    split; [done|]. split.
    + intros p [= <-]. rewrite Hrun. unfold attempt_of.
      by destruct (ensureK8sResources c funcObj looked_up) as [[]|[]| |].
    + rewrite Hrun. clear Hrun.
      destruct (ensureK8sResources c funcObj looked_up) as [|[e|] s'|p s'|];
        try done; cbn [final with_event trace] in Htr |- *.
      * exists ([Logged (LogProcessing key); Called (GetByKey key) (inr (Some funcObj))]
                ++ tr ++ [Logged (LogCantUpdate e)]).
        rewrite Htr. split; [unfold looked_up; cbn [trace]; by rewrite <- !app_assoc|].
        rewrite !calls_app, !existsb_app, Hprobe. cbn. split; [|by eauto].
        split; intros; simplify_eq.
      * exists ([Logged (LogProcessing key); Called (GetByKey key) (inr (Some funcObj))]
                ++ tr ++ [Logged (LogUpdated key)]).
        rewrite Htr. split; [unfold looked_up; cbn [trace]; by rewrite <- !app_assoc|].
        rewrite !calls_app, !existsb_app, Hprobe. cbn. split; [|by eauto].
        split; intros; simplify_eq.
      * exists ([Logged (LogProcessing key); Called (GetByKey key) (inr (Some funcObj))]
                ++ tr).
        rewrite Htr. split; [unfold looked_up; cbn [trace]; by rewrite <- !app_assoc|].
        rewrite !calls_app, !existsb_app, Hprobe. cbn. split; [|by eauto].
        split; intros; simplify_eq.
  - (* absent: the delete path *)
    destruct (delete_path_shape c ns name looked_up)
      as (rd & s' & tr & Heq & Htr & _ & _ & Hprobe & Hens).
    rewrite Heq in Hrun |- *.
    split; [|split; [done|]].
    + intros _. rewrite Hrun. unfold attempt_of. by destruct rd.
    + exists ([Logged (LogProcessing key); Called (GetByKey key) (inr None)]
              ++ tr ++ [Logged (match rd with
                                | Some e => LogCantDelete e
                                | None => LogDeleted key
                                end)]).
      rewrite Hrun.
      split; [destruct rd; cbn [final with_event trace]; rewrite Htr;
              unfold looked_up; cbn [trace]; by rewrite <- !app_assoc|].
      rewrite !calls_app, !existsb_app, Hprobe, Hens. cbn. split; [done|].
      intros; simplify_eq.
Qed.

(** ** The worker *)

(** Processing a key returns or panics, and leaves the queue alone. *)
Lemma processItem_queue (c : Controller) (key : string) (s : State) :
  returns_or_panics (processItem c key s) ∧
  queue (final (processItem c key s)) = queue s.
Proof.
  rewrite processItem_run.
  destruct (SplitMetaNamespaceKey key) as [err|[ns name]]; [done|].
  destruct (api (GetByKey key) (world s)) as [[err|[funcObj|]] w];
    cbv zeta; [done| |].
  - match goal with
    | |- context [ensureK8sResources c funcObj ?s1] =>
        destruct (ensure_path_shape c funcObj s1) as (tr & Hend & _ & Hq & _)
    end.
    by destruct (ensureK8sResources c funcObj _) as [[]|[]| |].
  - match goal with
    | |- context [deleteK8sResources c ns name ?s1] =>
        destruct (delete_path_shape c ns name s1)
          as (r & s' & tr & -> & _ & Hq & _)
    end.
    by destruct r.
Qed.

(** What [processNextItem] does once the queue has delivered a key, read
    off its text. *)
Lemma processNextItem_run (c : Controller) (s : State) (key : string) (q : Queue) :
  Get (queue s) = GetItem key q →
  processNextItem c s =
  match processItem c key (with_queue q s) with
  | Continue None s' | Returns None s' =>
      Returns true (with_queue (Done key (Forget key (queue s'))) s')
  | Continue (Some e) s' | Returns (Some e) s' =>
      if (NumRequeues key (queue s') <? maxRetries)%nat then
        Returns true
          (with_queue (Done key (AddRateLimited key (queue s')))
             (with_event (Logged (LogWillRetry key e)) s'))
      else
        Returns true
          (with_queue (Done key (Forget key (queue s')))
             (with_event (Logged (HandleError e))
                (with_event (Logged (LogGivingUp key e)) s')))
  | Panics p s' => Panics p (with_queue (Done key (queue s')) s')
  | Waits s' => Waits s'
  end.
Proof.
  intros HGet.
  unfold processNextItem, mbind, stmt_bind, queue_Get, defer, invoke_fn.
  rewrite HGet. fold (with_queue q s).
  destruct (processItem c key (with_queue q s)) as [[e|] s'|[e|] s'|p s'|s'];
    try done.
  all: unfold queue_NumRequeues; cbn [queue].
  all: by destruct (NumRequeues key (queue s') <? maxRetries)%nat.
Qed.

Lemma Done_failures (key : string) (q : Queue) :
  failures (Done key q) = failures q.
Proof. unfold Done. by case_bool_decide. Qed.

Lemma Done_waiting (key : string) (q : Queue) :
  waiting (Done key q) = waiting q.
Proof. unfold Done. by case_bool_decide. Qed.

Lemma NumRequeues_Done (key k : string) (q : Queue) :
  NumRequeues k (Done key q) = NumRequeues k q.
Proof. unfold NumRequeues. by rewrite Done_failures. Qed.

Lemma NumRequeues_Forget (key : string) (q : Queue) :
  NumRequeues key (Forget key q) = 0.
Proof. unfold NumRequeues, Forget. cbn. by rewrite lookup_delete_eq. Qed.

Lemma NumRequeues_AddRateLimited (key : string) (q : Queue) :
  NumRequeues key (AddRateLimited key q) = S (NumRequeues key q).
Proof. unfold NumRequeues at 1, AddRateLimited. cbn. by rewrite lookup_insert_eq. Qed.

(** What [get()] leaves of the queue. *)
Lemma Get_item (q q' : Queue) (key : string) :
  Get q = GetItem key q' →
  failures q' = failures q ∧ waiting q' = waiting q.
Proof.
  unfold Get. destruct (pending q); [by destruct (shuttingDown q)|].
  by intros [= <- <-].
Qed.

(** One failed attempt on a key that is alone in the queue: below the
    retry ceiling the key is back, one more failure on record, once its
    backoff has elapsed; at the ceiling the queue lets go of it. *)
Lemma retry_cycle (c : Controller) (key : string) (n : nat) (s : State) :
  retrying key n (queue s) →
  attempt_fails c key s →
  if (n <? maxRetries)%nat
  then retrying key (S n) (queue (attempt_cycle c s))
  else dropped key (queue (attempt_cycle c s)).
Proof.
  intros (Hp & Hd & Hpr & Hw & Hn) (q & e & s' & HGet & Hfail).
  destruct (processItem_queue c key (with_queue q s)) as [_ Hq].
  rewrite Hfail in Hq. cbn [final with_queue queue] in Hq.
  unfold attempt_cycle. rewrite (processNextItem_run c s key q HGet), Hfail, Hq.
  assert (NumRequeues key q = n) as ->.
  { unfold NumRequeues. by rewrite (proj1 (Get_item _ _ _ HGet)). }
  unfold Get in HGet. rewrite Hp in HGet. injection HGet as <-.
  rewrite Hd, Hpr, Hw.
  destruct (n <? maxRetries)%nat; cbn [final with_queue with_event queue].
  - unfold all_backoffs_elapsed, Done, AddRateLimited; cbn.
    rewrite bool_decide_eq_false_2 by set_solver. cbn.
    unfold backoff_elapsed; cbn.
    rewrite bool_decide_eq_true_2 by set_solver.
    rewrite decide_False by naive_solver.
    unfold Add; cbn.
    rewrite !bool_decide_eq_false_2 by set_solver. cbn.
    repeat split; [set_solver..|].
    unfold NumRequeues in *. cbn. by rewrite lookup_insert_eq; cbn; rewrite Hn.
  - unfold all_backoffs_elapsed, Done, Forget; cbn.
    rewrite bool_decide_eq_false_2 by set_solver. cbn.
    repeat split; [set_solver..|]. apply lookup_delete_eq.
Qed.

(** A queue with nothing pending and nothing waiting stays as it is:
    the worker has nothing to take and no backoff is running. *)
Lemma idle_cycle (c : Controller) (s : State) :
  pending (queue s) = [] → waiting (queue s) = [] →
  queue (attempt_cycle c s) = queue s.
Proof.
  intros Hp Hw.
  unfold attempt_cycle, processNextItem, mbind, stmt_bind, queue_Get, Get.
  rewrite Hp.
  destruct (shuttingDown (queue s)); cbn; unfold all_backoffs_elapsed;
    by rewrite Hw.
Qed.

(** C3.  One attempt of the worker on the key the queue delivers: when
    processing succeeds the retry history of the key is cleared; when it
    fails and fewer than 5 failures are on record, the failure is counted
    and the key is handed to the rate limiter; when it fails with 5 on
    record, the history is cleared, the error is reported and the key is
    not handed back.  So a key alone in the queue that fails six times in
    a row is back after each of the first five failures and gone after
    the sixth, and from then on the queue stays as it is. *)
Theorem retry_policy (c : Controller) (key : string) (s : State) :
  (∀ q, Get (queue s) = GetItem key q →
     match processItem c key (with_queue q s) with
     | Returns err s' =>
         ∃ s'',
           processNextItem c s = Returns true s'' ∧
           match err with
           | None =>
               queue s'' = Done key (Forget key q) ∧
               NumRequeues key (queue s'') = 0 ∧
               waiting (queue s'') = waiting (queue s) ∧
               trace s'' = trace s'
           | Some e =>
               if (NumRequeues key (queue s) <? 5)%nat then
                 queue s'' = Done key (AddRateLimited key q) ∧
                 NumRequeues key (queue s'') = S (NumRequeues key (queue s)) ∧
                 waiting (queue s'') = waiting (queue s) ++ [key] ∧
                 trace s'' = trace s' ++ [Logged (LogWillRetry key e)]
               else
                 queue s'' = Done key (Forget key q) ∧
                 NumRequeues key (queue s'') = 0 ∧
                 waiting (queue s'') = waiting (queue s) ∧
                 trace s'' = trace s' ++ [Logged (LogGivingUp key e);
                                          Logged (HandleError e)]
           end
     | _ => True
     end) ∧
  (retrying key 0 (queue s) →
   (∀ n, (n < 6)%nat → attempt_fails c key (Nat.iter n (attempt_cycle c) s)) →
   (∀ n, (n ≤ 5)%nat → retrying key n (queue (Nat.iter n (attempt_cycle c) s))) ∧
   dropped key (queue (Nat.iter 6 (attempt_cycle c) s)) ∧
   (∀ m, queue (Nat.iter (6 + m) (attempt_cycle c) s)
         = queue (Nat.iter 6 (attempt_cycle c) s))).
Proof.
  split.
  - intros q HGet. rewrite (processNextItem_run c s key q HGet).
    destruct (processItem_queue c key (with_queue q s)) as [_ Hq].
    destruct (Get_item _ _ _ HGet) as [Hf Hw].
    destruct (processItem c key (with_queue q s)) as [|[e|] s'|p s'|s'];
      [done| | |done..]; cbn [final with_queue queue] in Hq; rewrite Hq.
    + assert (NumRequeues key q = NumRequeues key (queue s)) as ->
        by (unfold NumRequeues; by rewrite Hf).
      change maxRetries with 5.
      destruct (NumRequeues key (queue s) <? 5)%nat; eexists; (split; [done|]);
        cbn [with_queue with_event queue trace].
      * rewrite NumRequeues_Done, NumRequeues_AddRateLimited, Done_waiting.
        unfold NumRequeues. rewrite Hf. cbn. by rewrite Hw.
      * rewrite NumRequeues_Done, NumRequeues_Forget, Done_waiting.
        cbn. by rewrite Hw, <- app_assoc.
    + eexists; split; [done|]. cbn [with_queue queue trace].
      rewrite NumRequeues_Done, NumRequeues_Forget, Done_waiting.
      cbn. by rewrite Hw.
  - intros Hstart Hfails.
    assert (Hretry : ∀ n, (n ≤ 5)%nat →
              retrying key n (queue (Nat.iter n (attempt_cycle c) s))).
    { induction n as [|n IH]; intros Hn; [done|].
      assert (Hstep := retry_cycle c key n _ (IH ltac:(lia)) (Hfails n ltac:(lia))).
      destruct (Nat.ltb_spec n maxRetries) as [_|Hge]; [done|].
      unfold maxRetries in Hge. lia. }
    assert (Hgone : dropped key (queue (Nat.iter 6 (attempt_cycle c) s))).
    { exact (retry_cycle c key 5 _ (Hretry 5 ltac:(lia)) (Hfails 5 ltac:(lia))). }
    split; [done|]. split; [done|].
    induction m as [|m IH]; [by rewrite Nat.add_0_r|].
    rewrite Nat.add_succ_r, Nat.iter_succ.
    destruct Hgone as (Hp & _ & _ & Hw & _).
    rewrite idle_cycle; [done| by rewrite IH..].
Qed.

(** C1 (as the code has it).  A key that cannot be split fails at once:
    the attempt logs its first line, makes no lookup and no round trip,
    and returns the error of the split.  The worker then treats it like
    any other failure: with fewer than 5 failures on record the key is
    logged and handed to the rate limiter to be retried; with 5 on record
    it is logged, reported and let go. *)
Theorem malformed_key_fails_like_any_other (c : Controller) (key : string)
    (err : error) (s : State) :
  SplitMetaNamespaceKey key = inl err →
  processItem c key s
    = Returns (Some err) (with_event (Logged (LogProcessing key)) s) ∧
  ∀ q, Get (queue s) = GetItem key q →
    ∃ s',
      processNextItem c s = Returns true s' ∧
      if (NumRequeues key (queue s) <? 5)%nat then
        queue s' = Done key (AddRateLimited key q) ∧
        key ∈ waiting (queue s') ∧
        NumRequeues key (queue s') = S (NumRequeues key (queue s)) ∧
        trace s' = trace s ++ [Logged (LogProcessing key);
                               Logged (LogWillRetry key err)]
      else
        queue s' = Done key (Forget key q) ∧
        waiting (queue s') = waiting (queue s) ∧
        NumRequeues key (queue s') = 0 ∧
        trace s' = trace s ++ [Logged (LogProcessing key);
                               Logged (LogGivingUp key err);
                               Logged (HandleError err)].
Proof.
  intros Hsplit.
  assert (Hrun : ∀ s0, processItem c key s0
            = Returns (Some err) (with_event (Logged (LogProcessing key)) s0)).
  { intros s0. by rewrite processItem_run, Hsplit. }
  split; [done|].
  intros q HGet. rewrite (processNextItem_run c s key q HGet), Hrun.
  destruct (Get_item _ _ _ HGet) as [Hf Hw].
  cbn [with_event with_queue queue trace].
  assert (NumRequeues key q = NumRequeues key (queue s)) as ->
    by (unfold NumRequeues; by rewrite Hf).
  change maxRetries with 5.
  destruct (NumRequeues key (queue s) <? 5)%nat; eexists; (split; [done|]);
    cbn [with_queue with_event queue trace].
  - rewrite NumRequeues_Done, NumRequeues_AddRateLimited, Done_waiting.
    unfold NumRequeues. rewrite Hf. cbn.
    split; [done|]. split; [set_solver|]. split; [done|].
    by rewrite <- app_assoc.
  - rewrite NumRequeues_Done, NumRequeues_Forget, Done_waiting.
    cbn. rewrite Hw. by rewrite <- !app_assoc.
Qed.

(** ** The garbage-collection sweep *)

(** When an object owes a key, in full. *)
Lemma owner_key_Some (o : ObjectMeta) (key : string) :
  owner_key o = Some key ↔
  ∃ owner rest,
    OwnerReferences o = owner :: rest ∧
    or_Kind owner = "Function" ∧ or_APIVersion owner = "kubeless.io" ∧
    key = Namespace o +:+ "/" +:+ or_Name owner.
Proof.
  unfold owner_key. destruct (OwnerReferences o) as [|owner rest].
  - split; [done|]. by intros (? & ? & ? & _).
  - case_decide as Hfn.
    + split.
      * intros [= <-]. destruct Hfn. by exists owner, rest.
      * by intros (? & ? & [= <- <-] & _ & _ & ->).
    + split; [done|]. intros (? & ? & [= <- <-] & ? & ? & _). tauto.
Qed.

(** One round of the loop adds the key the object owes, if any, and does
    nothing else. *)
Lemma requeue_owner_run {R} (obj : ObjectMeta) (s : State) :
  ∃ s',
    requeue_owner (R:=R) obj s = Continue () s' ∧
    world s' = world s ∧ heap s' = heap s ∧ trace s' = trace s ∧
    queue s' = match owner_key obj with
               | Some key => Add key (queue s)
               | None => queue s
               end.
Proof.
  unfold requeue_owner, owner_key.
  destruct (OwnerReferences obj) as [|owner rest]; cbn; [by eexists|].
  unfold mbind, stmt_bind; cbn. unfold when, funcKind, funcAPI.
  case_decide as Hfn.
  - destruct Hfn as [-> ->]. cbn. by eexists.
  - destruct (String.eqb_spec (or_Kind owner) "Function");
      destruct (String.eqb_spec (or_APIVersion owner) "kubeless.io");
      cbn; try tauto; by eexists.
Qed.

(** The whole loop adds the keys the objects owe, in order. *)
Lemma requeue_owners_run {R} (objs : list ObjectMeta) (s : State) :
  ∃ s',
    range (R:=R) objs requeue_owner s = Continue () s' ∧
    world s' = world s ∧ heap s' = heap s ∧ trace s' = trace s ∧
    queue s' = enqueue_all (sweep_keys objs) (queue s).
Proof.
  revert s. induction objs as [|obj objs IH]; intros s; [by eexists|].
  destruct (requeue_owner_run (R:=R) obj s) as (s1 & Hrun & Hw & Hh & Ht & Hq).
  destruct (IH s1) as (s2 & Hrun' & Hw' & Hh' & Ht' & Hq').
  exists s2. cbn [range]. unfold mbind, stmt_bind. rewrite Hrun, Hrun'.
  repeat split; [congruence..|].
  rewrite Hq', Hq. unfold sweep_keys, enqueue_all. cbn.
  destruct (owner_key obj); reflexivity.
Qed.

(** A collector lists, and, when the listing succeeds, runs the loop. *)
Ltac collector_run :=
  intros;
  unfold collectServices, collectDeployment, collectConfigMap,
    mbind, stmt_bind, invoke;
  let err := fresh "err" in
  let items := fresh "items" in
  let Hrun := fresh "Hrun" in
  match goal with
  | |- context [api ?c (world ?s)] =>
      destruct (api c (world s)) as [[err|items] ?]
  end;
  [ eexists _, _, (inl err); by cbn
  | match goal with
    | |- context [range items _ ?s1] =>
        destruct (requeue_owners_run (R:=option error) items s1)
          as (? & Hrun & ? & ? & ? & ?);
        change (range (R:=option error) items _ s1)
          with (range (R:=option error) items requeue_owner s1)
    end;
    rewrite Hrun; eexists _, _, (inr items);
    split; [reflexivity|]; by cbn in * ].

Lemma collectServices_run (c : Controller) (s : State) :
  ∃ r s' (ans : error + list ObjectMeta),
    collectServices c s = Returns r s' ∧
    heap s' = heap s ∧
    trace s' = trace s ++ [Called Services_List ans] ∧
    queue s' = enqueue_all (sweep_keys (match ans with inr items => items | inl _ => [] end)) (queue s) ∧
    r = match ans with inl e => Some e | inr _ => None end.
Proof. collector_run. Qed.

Lemma collectDeployment_run (c : Controller) (s : State) :
  ∃ r s' (ans : error + list ObjectMeta),
    collectDeployment c s = Returns r s' ∧
    heap s' = heap s ∧
    trace s' = trace s ++ [Called Deployments_List ans] ∧
    queue s' = enqueue_all (sweep_keys (match ans with inr items => items | inl _ => [] end)) (queue s) ∧
    r = match ans with inl e => Some e | inr _ => None end.
Proof. collector_run. Qed.

Lemma collectConfigMap_run (c : Controller) (s : State) :
  ∃ r s' (ans : error + list ObjectMeta),
    collectConfigMap c s = Returns r s' ∧
    heap s' = heap s ∧
    trace s' = trace s ++ [Called ConfigMaps_List ans] ∧
    queue s' = enqueue_all (sweep_keys (match ans with inr items => items | inl _ => [] end)) (queue s) ∧
    r = match ans with inl e => Some e | inr _ => None end.
Proof. collector_run. Qed.

Lemma sweep_keys_app (objs1 objs2 : list ObjectMeta) :
  sweep_keys (objs1 ++ objs2) = sweep_keys objs1 ++ sweep_keys objs2.
Proof. apply omap_app. Qed.

(** The queue after the sweep, from what each collector did to it. *)
Ltac sweep_queue :=
  repeat match goal with
         | H : queue _ = enqueue_all _ _ |- _ => rewrite H; clear H
         end;
  cbn; rewrite ?app_nil_r, ?sweep_keys_app; unfold enqueue_all;
  rewrite ?foldl_app; done.

(** C7.  The sweep lists services, deployments and configuration
    objects, in that order, stopping at the first listing that fails.
    What it does to the queue is to enqueue, object by object in the order
    listed, the key [namespace/ownerName] of every object whose first
    owner reference has kind "Function" and api-group "kubeless.io", and
    of no other object.  It makes no round trip but the listings, so it
    deletes nothing, and it leaves the store alone. *)
Theorem sweep_requeues_owners (c : Controller) (s : State) :
  ∃ r s' tr,
    garbageCollect c s = Returns r s' ∧
    trace s' = trace s ++ tr ∧
    heap s' = heap s ∧
    queue s' = enqueue_all (sweep_keys (listed tr)) (queue s) ∧
    Forall (λ c', is_list c' = true ∧ is_delete c' = false) (calls tr) ∧
    calls tr `prefix_of` [Services_List; Deployments_List; ConfigMaps_List] ∧
    (r = None → calls tr = [Services_List; Deployments_List; ConfigMaps_List]).
Proof.
  unfold garbageCollect, mbind, stmt_bind, invoke_fn, check.
  destruct (collectServices_run c s)
    as (r1 & s1 & [e1|objs1] & -> & Hh1 & Ht1 & Hq1 & ->).
  { eexists _, _, _. split; [reflexivity|]. split; [exact Ht1|].
    split; [done|]. split; [sweep_queue|].
    split; [cbn; by repeat first [apply Forall_nil_2 | apply Forall_cons_2]|].
    split; [by exists [Deployments_List; ConfigMaps_List]|done]. }
  cbn [mret stmt_ret].
  destruct (collectDeployment_run c s1)
    as (r2 & s2 & [e2|objs2] & -> & Hh2 & Ht2 & Hq2 & ->).
  { eexists _, _, _. split; [reflexivity|].
    rewrite Ht2, Ht1, <- app_assoc. split; [reflexivity|].
    split; [congruence|]. split; [sweep_queue|].
    split; [cbn; by repeat first [apply Forall_nil_2 | apply Forall_cons_2]|].
    split; [by exists [ConfigMaps_List]|done]. }
  cbn [mret stmt_ret].
  destruct (collectConfigMap_run c s2)
    as (r3 & s3 & [e3|objs3] & -> & Hh3 & Ht3 & Hq3 & ->).
  { eexists _, _, _. split; [reflexivity|].
    rewrite Ht3, Ht2, Ht1, <- !app_assoc. split; [reflexivity|].
    split; [congruence|].
    split; [sweep_queue|].
    split; [cbn; by repeat first [apply Forall_nil_2 | apply Forall_cons_2]|].
    split; [by exists []|done]. }
  eexists _, _, _. split; [reflexivity|].
  rewrite Ht3, Ht2, Ht1, <- !app_assoc. split; [reflexivity|].
  split; [congruence|].
  split; [sweep_queue|].
  split; [cbn; by repeat first [apply Forall_nil_2 | apply Forall_cons_2]|].
  split; [by exists []|done].
Qed.

(** ** The group/version lookup *)

(** The inner loop sets the group version when the list has a resource
    named [target], and leaves it alone otherwise. *)
Lemma scan_APIResources_spec (target : string) (resource : APIResourceList)
    (apiResources : list APIResource) (groupVersion : string) :
  scan_APIResources target resource apiResources groupVersion =
  if bool_decide (target ∈ ar_Name <$> apiResources)
  then GroupVersion resource else groupVersion.
Proof.
  induction apiResources as [|a rest IH]; cbn.
  - by rewrite bool_decide_eq_false_2 by set_solver.
  - destruct (String.eqb_spec (ar_Name a) target) as [->|Hne].
    + by rewrite bool_decide_eq_true_2 by set_solver.
    + rewrite IH. repeat case_bool_decide; try done; set_solver.
Qed.

(** The outer loop ends with the group version of the last list that has
    a resource named [target], or with what it started from. *)
Lemma scan_resources_spec (target : string) (resources : list APIResourceList)
    (groupVersion : string) :
  scan_resources target resources groupVersion =
  from_option GroupVersion groupVersion (last_match target resources).
Proof.
  unfold last_match.
  revert groupVersion. induction resources as [|r rest IH]; intros gv; [done|].
  cbn [scan_resources]. rewrite IH, scan_APIResources_spec.
  fold (contains_resource target r).
  destruct (contains_resource target r) eqn:Hr.
  - rewrite filter_cons_True by done. rewrite last_cons.
    by destruct (last (filter _ rest)).
  - rewrite filter_cons_False by (by rewrite Hr). done.
Qed.

(** C9 (as the code has it).  The lookup makes one discovery round trip.
    It returns the discovery error when discovery fails.  Otherwise it
    returns the group version of the last discovered list that has a
    resource named [target], unless there is no such list or that group
    version is the empty string, in which case it returns the not-found
    error: the empty string doubles as the marker for "not found". *)
Theorem group_version_of_last_match (target : string) (s : State) :
  ∃ (ans : error + list APIResourceList) s',
    getResouceGroupVersion target s
      = Returns
          match ans with
          | inl err => ("", Some err)
          | inr resources =>
              match last_match target resources with
              | Some l =>
                  if decide (GroupVersion l = "")
                  then ("", Some (Errorf ("Resource " +:+ target
                                          +:+ " not found in any group")))
                  else (GroupVersion l, None)
              | None =>
                  ("", Some (Errorf ("Resource " +:+ target
                                     +:+ " not found in any group")))
              end
          end s' ∧
    trace s' = trace s ++ [Called ServerResources ans] ∧
    queue s' = queue s ∧ heap s' = heap s.
Proof.
  unfold getResouceGroupVersion, mbind, stmt_bind, invoke.
  destruct (api ServerResources (world s)) as [[err|resources] w].
  - exists (inl err). eexists. by split; [reflexivity|].
  - exists (inr resources),
      {| world := w; heap := heap s; queue := queue s;
         trace := trace s ++ [Called ServerResources (inr resources)] |}.
    split; [|done].
    rewrite scan_resources_spec.
    destruct (last_match target resources) as [l|]; cbn; [|done].
    case_decide as Hgv.
    + by rewrite Hgv.
    + by rewrite (proj2 (String.eqb_neq _ _) Hgv).
Qed.

(** ** More of the delete path *)

(** X1.  [deleteAutoscale] always returns and touches neither the store
    nor the queue.  It asks for the deletion of the metrics monitor only
    when the controller has a client for it, and then for the deletion of
    the autoscaler; it returns success only when it has asked for all of
    them.  The error it returns is the error of its last round trip, and
    that error is never a not-found. *)
Theorem autoscale_cleanup_plan (c : Controller) (ns name : string) (s : State) :
  ∃ r s' tr,
    deleteAutoscale c ns name s = Returns r s' ∧
    trace s' = trace s ++ tr ∧ heap s' = heap s ∧ queue s' = queue s ∧
    calls tr `prefix_of` autoscale_plan c ns name ∧
    (r = None → calls tr = autoscale_plan c ns name) ∧
    (∀ e, r = Some e ↔
          IsNotFound e = false ∧
          ∃ ev, last tr = Some ev ∧ event_error ev = Some e).
Proof.
  change (wp (deleteAutoscale c ns name) (λ o, ∃ r s' tr,
    o = Returns r s' ∧
    trace s' = trace s ++ tr ∧ heap s' = heap s ∧ queue s' = queue s ∧
    calls tr `prefix_of` autoscale_plan c ns name ∧
    (r = None → calls tr = autoscale_plan c ns name) ∧
    (∀ e, r = Some e ↔
          IsNotFound e = false ∧
          ∃ ev, last tr = Some ev ∧ event_error ev = Some e)) s).
  unfold deleteAutoscale, autoscale_plan.
  destruct (smclient c) as [client|].
  all: repeat wp_step.
  all: try match goal with
           | H : bool_decide _ = _ |- _ => by vm_compute in H
           end.
  all: eexists _, _, _; split; [reflexivity|].
  all: split; [flatten_trace; reflexivity|].
  all: split; [reflexivity|]; split; [reflexivity|].
  all: split; [cbn; eexists; reflexivity|].
  all: split; [intros ?; by simplify_eq|].
  all: intros e'; cbn; split;
    [ intros ?; simplify_eq;
      match goal with
      | H : fatal (Some _) = true |- _ =>
          cbn in H; apply negb_true_iff in H
      end; eauto
    | intros (Hnf & ev' & ? & Hev); simplify_eq; cbn in Hev; simplify_eq;
      try done;
      match goal with
      | H : fatal (Some _) = false |- _ =>
          cbn in H; apply negb_false_iff in H; congruence
      end ].
Qed.

(** X2.  The round trips of the delete path are, in this order: the
    probe for the scheduled job [trigger-<name>]; the deletion of that job
    when the probe found it; the deletion of the deployment with
    background propagation, of the service and of the configuration
    object; and the clean-up of the autoscaling objects.  All of them
    address the namespace and the name the path was given.  The path
    stops early only by returning an error, so a run that returns success
    has asked for every deletion. *)
Theorem delete_path_plan (c : Controller) (ns name : string) (s : State) :
  ∃ r s' (probe : option error) rest,
    deleteK8sResources c ns name s = Returns r s' ∧
    trace s' = trace s ++ Called (CronJobs_Get ns (Sprintf_trigger name)) probe :: rest ∧
    calls (Called (CronJobs_Get ns (Sprintf_trigger name)) probe :: rest)
      `prefix_of` delete_plan c ns name (bool_decide (probe = None)) ∧
    (r = None →
     calls (Called (CronJobs_Get ns (Sprintf_trigger name)) probe :: rest)
       = delete_plan c ns name (bool_decide (probe = None))).
Proof.
  change (wp (deleteK8sResources c ns name) (λ o, ∃ r s' (probe : option error) rest,
    o = Returns r s' ∧
    trace s' = trace s ++ Called (CronJobs_Get ns (Sprintf_trigger name)) probe :: rest ∧
    calls (Called (CronJobs_Get ns (Sprintf_trigger name)) probe :: rest)
      `prefix_of` delete_plan c ns name (bool_decide (probe = None)) ∧
    (r = None →
     calls (Called (CronJobs_Get ns (Sprintf_trigger name)) probe :: rest)
       = delete_plan c ns name (bool_decide (probe = None)))) s).
  unfold deleteK8sResources, deleteAutoscale, delete_plan, autoscale_plan.
  destruct (smclient c) as [client|].
  all: repeat wp_step.
  all: try match goal with
           | H : bool_decide (Some _ ≠ None) = _ |- _ => by vm_compute in H
           | H : bool_decide (None ≠ None) = _ |- _ => by vm_compute in H
           end.
  all: eexists _, _, _, _; split; [reflexivity|].
  all: split; [flatten_trace; reflexivity|].
  all: match goal with
       | H : bool_decide (_ = None) = _ |- _ => rewrite H
       end.
  all: split; [cbn; eexists; reflexivity|].
  all: intros ?; by simplify_eq.
Qed.

(** ** More of the ensure path *)

(** X3.  The scheduled job of a Function.  A Function whose type is not
    "Scheduled" makes the ensure path neither discover the resources of
    the platform nor ensure a scheduled job.  For one whose type is
    "Scheduled", a run that returns success has ensured the job.  And
    whenever the job is ensured, the Function is of that type, discovery
    was asked once and answered, and the builder of the job is handed the
    group version of the last discovered list that has cronjobs, which is
    not the empty string. *)
Theorem scheduled_job_follows_discovery (c : Controller) (funcObj : loc)
    (s : State) (f : Function Deployment) :
  heap s !! funcObj = Some f →
  ∃ tr,
    trace (final (ensureK8sResources c funcObj s)) = trace s ++ tr ∧
    (spec_Type (fn_Spec f) ≠ "Scheduled" →
     Forall (λ c', is_discovery c' = false ∧ is_cronjob_ensure c' = false)
       (calls tr)) ∧
    (spec_Type (fn_Spec f) = "Scheduled" →
     (∃ s', ensureK8sResources c funcObj s = Returns None s') →
     existsb is_cronjob_ensure (calls tr) = true) ∧
    (∀ i g ors gv,
       calls tr !! i = Some (EnsureFuncCronJob g ors gv) →
       spec_Type (fn_Spec f) = "Scheduled" ∧ gv ≠ "" ∧
       ∃ resources l,
         discovered tr = [resources] ∧
         last_match "cronjobs" resources = Some l ∧ GroupVersion l = gv).
Proof.
  intros Hf.
  change (wp (ensureK8sResources c funcObj) (λ o, ∃ tr,
    trace (final o) = trace s ++ tr ∧
    (spec_Type (fn_Spec f) ≠ "Scheduled" →
     Forall (λ c', is_discovery c' = false ∧ is_cronjob_ensure c' = false)
       (calls tr)) ∧
    (spec_Type (fn_Spec f) = "Scheduled" →
     (∃ s', o = Returns None s') →
     existsb is_cronjob_ensure (calls tr) = true) ∧
    (∀ i g ors gv,
       calls tr !! i = Some (EnsureFuncCronJob g ors gv) →
       spec_Type (fn_Spec f) = "Scheduled" ∧ gv ≠ "" ∧
       ∃ resources l,
         discovered tr = [resources] ∧
         last_match "cronjobs" resources = Some l ∧ GroupVersion l = gv)) s).
  unfold ensureK8sResources.
  repeat wp_step.
  all: eexists; split;
    [ first [ flatten_trace; reflexivity | symmetry; apply app_nil_r ] | ].
  all: repeat match goal with
              | H : String.eqb _ "Scheduled" = true |- _ =>
                  apply String.eqb_eq in H
              | H : String.eqb _ "Scheduled" = false |- _ =>
                  apply String.eqb_neq in H
              end.
  all: split;
    [ intros ?; first [ done
                      | cbn; by repeat first [apply Forall_nil_2 | apply Forall_cons_2] ]
    | ].
  all: split;
    [ intros ? [? ?]; first [ done | simplify_eq ]
    | ].
  all: intros i' g' ors' gv' Hi; by_position i' Hi.
  all: split; [done|].
  all: match goal with
       | H : String.eqb (scan_resources ?t ?rs "") "" = false |- _ =>
           apply String.eqb_neq in H; rewrite scan_resources_spec in H |- *;
           destruct (last_match t rs) as [l|] eqn:?; [|done];
           split; [done|]; by exists rs, l
       end.
Qed.

(** X4.  A controller without a metrics-monitor client cannot serve an
    autoscaler on an object metric.  For a Function whose autoscaling
    specification names its object and its scale target and whose first
    metric has type "Object", the ensure path of such a controller never
    completes: either an earlier step fails and its error is returned, or
    the path panics on the nil client, having created no metrics monitor
    and no autoscaler. *)
Theorem object_metric_needs_monitor_client (c : Controller) (funcObj : loc)
    (s : State) (f : Function Deployment) (metric : MetricSpec)
    (metrics : list MetricSpec) :
  heap s !! funcObj = Some f →
  smclient c = None →
  names_autoscaler f = true →
  Metrics (hpa_Spec (spec_HorizontalPodAutoscaler (fn_Spec f))) = metric :: metrics →
  ms_Type metric = ObjectMetricSourceType →
  (∃ e s', ensureK8sResources c funcObj s = Returns (Some e) s') ∨
  (∃ s' tr,
     ensureK8sResources c funcObj s = Panics NilDereference s' ∧
     trace s' = trace s ++ tr ∧
     Forall (λ c', is_autoscale_ensure c' = false) (calls tr)).
Proof.
  intros Hf Hclient Hnames Hmetrics Htype.
  change (wp (ensureK8sResources c funcObj) (λ o,
    (∃ e s', o = Returns (Some e) s') ∨
    (∃ s' tr,
       o = Panics NilDereference s' ∧ trace s' = trace s ++ tr ∧
       Forall (λ c', is_autoscale_ensure c' = false) (calls tr))) s).
  unfold ensureK8sResources. unfold names_autoscaler in Hnames.
  rewrite Hclient.
  repeat wp_step.
  all: try match goal with
           | H : (len_map None =? 0)%nat = false |- _ =>
               by destruct (len_map_not_nil _ H)
           | H : negb _ && negb _ = false |- _ => congruence
           | H : _ !! 0 = _ |- _ =>
               rewrite Hmetrics in H; cbn in H; simplify_eq;
               match goal with
               | H' : String.eqb _ ObjectMetricSourceType = false |- _ =>
                   by rewrite Htype in H'
               end
           end.
  all: first
    [ left; by eauto
    | right; eexists _, _; split; [reflexivity|];
      split; [flatten_trace; reflexivity|];
      cbn; by repeat first [apply Forall_nil_2 | apply Forall_cons_2] ].
Qed.

(** X5.  The autoscaling objects of a Function.  When the ensure path
    creates the autoscaler, what it hands over is the autoscaling
    specification of the Function with the owner references set to those
    of the Function itself, the same that were handed to the builder of
    the configuration object, and the Function in the store carries that
    specification from then on.  When it creates the metrics monitor, the
    Function names its autoscaler, the first metric of the specification
    has type "Object", the controller has a client for the monitor, and
    the monitor goes to the namespace of the Function. *)
Theorem autoscaler_owned_by_function (c : Controller) (funcObj : loc)
    (s : State) (f : Function Deployment) :
  heap s !! funcObj = Some f →
  ∃ tr,
    trace (final (ensureK8sResources c funcObj s)) = trace s ++ tr ∧
    (∀ i hpa,
       calls tr !! i = Some (CreateAutoscale hpa) →
       ∃ g ors f',
         GetOwnerReference g = inr ors ∧
         calls tr !! 0 = Some (EnsureFuncConfigMap g ors) ∧
         hpa = spec_HorizontalPodAutoscaler (fn_Spec (set_hpa_OwnerReferences ors f)) ∧
         heap (final (ensureK8sResources c funcObj s)) !! funcObj = Some f' ∧
         spec_HorizontalPodAutoscaler (fn_Spec f') = hpa) ∧
    (∀ i g ns ors,
       calls tr !! i = Some (CreateServiceMonitor g ns ors) →
       names_autoscaler f = true ∧
       smclient c ≠ None ∧
       ns = Namespace (fn_ObjectMeta f) ∧
       ∃ metric,
         Metrics (hpa_Spec (spec_HorizontalPodAutoscaler (fn_Spec f))) !! 0
           = Some metric ∧
         ms_Type metric = ObjectMetricSourceType).
Proof.
  intros Hf.
  change (wp (ensureK8sResources c funcObj) (λ o, ∃ tr,
    trace (final o) = trace s ++ tr ∧
    (∀ i hpa,
       calls tr !! i = Some (CreateAutoscale hpa) →
       ∃ g ors f',
         GetOwnerReference g = inr ors ∧
         calls tr !! 0 = Some (EnsureFuncConfigMap g ors) ∧
         hpa = spec_HorizontalPodAutoscaler (fn_Spec (set_hpa_OwnerReferences ors f)) ∧
         heap (final o) !! funcObj = Some f' ∧
         spec_HorizontalPodAutoscaler (fn_Spec f') = hpa) ∧
    (∀ i g ns ors,
       calls tr !! i = Some (CreateServiceMonitor g ns ors) →
       names_autoscaler f = true ∧
       smclient c ≠ None ∧
       ns = Namespace (fn_ObjectMeta f) ∧
       ∃ metric,
         Metrics (hpa_Spec (spec_HorizontalPodAutoscaler (fn_Spec f))) !! 0
           = Some metric ∧
         ms_Type metric = ObjectMetricSourceType)) s).
  unfold ensureK8sResources, names_autoscaler.
  repeat wp_step.
  all: repeat match goal with H : api _ _ = _ |- _ => clear H end.
  all: eexists; split;
    [ first [ flatten_trace; reflexivity | symmetry; apply app_nil_r ] | ].
  all: split;
    [ intros i' hpa' Hi; by_position i' Hi
    | intros i' g' ns' ors' Hi; by_position i' Hi ].
  all: first
    [ eexists _, _, _; split; [eassumption|]; split; [reflexivity|];
      split; [reflexivity|]; cbn [final heap];
      rewrite lookup_insert_eq; split; reflexivity
    | split; [done|]; split; [done|]; split; [done|];
      eexists; split; [reflexivity|]; by apply String.eqb_eq ].
Qed.

(** X6.  What the ensure path deletes.  It never asks for the deletion of
    the scheduled job, the deployment, the service or the configuration
    object.  For a Function that names its autoscaler it deletes nothing
    at all.  For one that does not, it creates no metrics monitor and no
    autoscaler, and the only deletions it asks for are those of the
    metrics monitor and of the autoscaler that bear the namespace and the
    name of the Function. *)
Theorem ensure_path_deletes_only_autoscaling (c : Controller) (funcObj : loc)
    (s : State) (f : Function Deployment) :
  heap s !! funcObj = Some f →
  ∃ tr,
    trace (final (ensureK8sResources c funcObj s)) = trace s ++ tr ∧
    (∀ i c',
       calls tr !! i = Some c' → is_delete c' = true →
       names_autoscaler f = false ∧
       c' ∈ autoscale_plan c (Namespace (fn_ObjectMeta f)) (Name (fn_ObjectMeta f))) ∧
    (names_autoscaler f = false →
     Forall (λ c', is_autoscale_ensure c' = false) (calls tr)).
Proof.
  intros Hf.
  change (wp (ensureK8sResources c funcObj) (λ o, ∃ tr,
    trace (final o) = trace s ++ tr ∧
    (∀ i c',
       calls tr !! i = Some c' → is_delete c' = true →
       names_autoscaler f = false ∧
       c' ∈ autoscale_plan c (Namespace (fn_ObjectMeta f)) (Name (fn_ObjectMeta f))) ∧
    (names_autoscaler f = false →
     Forall (λ c', is_autoscale_ensure c' = false) (calls tr))) s).
  unfold ensureK8sResources, deleteAutoscale, names_autoscaler, autoscale_plan.
  destruct (smclient c) as [client|].
  all: repeat wp_step.
  all: repeat match goal with H : api _ _ = _ |- _ => clear H end.
  all: try match goal with
           | H : bool_decide (Some _ ≠ None) = _ |- _ => by vm_compute in H
           | H : bool_decide (None ≠ None) = _ |- _ => by vm_compute in H
           end.
  all: eexists; split;
    [ first [ flatten_trace; reflexivity | symmetry; apply app_nil_r ] | ].
  all: split;
    [ intros i' c'' Hi Hdel; by_position i' Hi; try discriminate Hdel
    | intros ?; first [ done
                      | cbn; by repeat first [apply Forall_nil_2 | apply Forall_cons_2] ] ].
  all: split; [done|];
    by repeat first [apply list_elem_of_here | apply list_elem_of_further].
Qed.

(** X7.  A Function without an autoscaler.  When the autoscaling
    specification does not name its object or its scale target, the
    ensure path always returns.  A run that returns success ends with the
    clean-up of the autoscaling objects of the Function, and deletes
    nothing before that.  A deletion that answers not-found does not fail
    the run; one that answers any other error ends the run, which returns
    that error. *)
Theorem missing_autoscaler_is_cleaned_up (c : Controller) (funcObj : loc)
    (s : State) (f : Function Deployment) :
  heap s !! funcObj = Some f →
  names_autoscaler f = false →
  ∃ r s' tr,
    ensureK8sResources c funcObj s = Returns r s' ∧
    trace s' = trace s ++ tr ∧
    (r = None →
     ∃ before,
       calls tr
         = before ++ autoscale_plan c (Namespace (fn_ObjectMeta f))
                       (Name (fn_ObjectMeta f)) ∧
       Forall (λ c', is_delete c' = false) before) ∧
    (∀ i ev e,
       tr !! i = Some ev → is_delete_event ev = true →
       event_error ev = Some e → IsNotFound e = false →
       r = Some e ∧ length tr = S i) ∧
    (∀ ev,
       last tr = Some ev → is_delete_event ev = true →
       fatal (event_error ev) = false →
       r = None).
Proof.
  intros Hf Hnames.
  change (wp (ensureK8sResources c funcObj) (λ o, ∃ r s' tr,
    o = Returns r s' ∧
    trace s' = trace s ++ tr ∧
    (r = None →
     ∃ before,
       calls tr
         = before ++ autoscale_plan c (Namespace (fn_ObjectMeta f))
                       (Name (fn_ObjectMeta f)) ∧
       Forall (λ c', is_delete c' = false) before) ∧
    (∀ i ev e,
       tr !! i = Some ev → is_delete_event ev = true →
       event_error ev = Some e → IsNotFound e = false →
       r = Some e ∧ length tr = S i) ∧
    (∀ ev,
       last tr = Some ev → is_delete_event ev = true →
       fatal (event_error ev) = false →
       r = None)) s).
  unfold ensureK8sResources, deleteAutoscale, autoscale_plan.
  unfold names_autoscaler in Hnames.
  destruct (smclient c) as [client|].
  all: repeat wp_step.
  all: repeat match goal with H : api _ _ = _ |- _ => clear H end.
  all: try match goal with
           | H : bool_decide (Some _ ≠ None) = _ |- _ => by vm_compute in H
           | H : bool_decide (None ≠ None) = _ |- _ => by vm_compute in H
           | H : (len_map None =? 0)%nat = false |- _ =>
               by destruct (len_map_not_nil _ H)
           | H : negb _ && negb _ = true |- _ => congruence
           | H : fatal ?o = true, H' : fatal ?o = false |- _ => congruence
           end.
  all: eexists _, _, _; split; [reflexivity|].
  all: split;
    [ first [ flatten_trace; reflexivity | symmetry; apply app_nil_r ] | ].
  all: split;
    [ intros ?; first
        [ done
        | subst;
          match goal with
          | H : fatal None = true |- _ => discriminate H
          end
        | match goal with
          | |- ∃ before, ?l = before ++ ?p ∧ _ =>
              exists (take (length l - length p) l)
          end;
          cbn; split; [reflexivity|];
          by repeat first [apply Forall_nil_2 | apply Forall_cons_2] ]
    | ].
  all: split;
    [ intros i' ev' e' Hi Hdel Herr Hnf; by_position i' Hi;
      cbn in Hdel, Herr; simplify_eq;
      repeat match goal with
             | H : fatal (Some _) = _ |- _ => cbn in H
             | H : negb _ = false |- _ => apply negb_false_iff in H
             end;
      first [ congruence | auto ]
    | intros ev' Hlast Hdel Hfatal; cbn in Hlast; simplify_eq;
      cbn in Hdel, Hfatal; first [ done | congruence ] ].
Qed.

(** X8.  The deployment override of the controller's configuration.  When
    the configuration has a "deployment" entry that cannot be parsed, the
    ensure path logs the parse error and returns it without a single
    round trip.  When the entry parses and merging it into the deployment
    of the Function fails, the path logs the merge error and returns it,
    again without a round trip, and the Function in the store keeps the
    deployment as the merge left it. *)
Theorem unusable_override_stops_ensure (c : Controller) (funcObj : loc)
    (s : State) (f : Function Deployment) (data : string) :
  heap s !! funcObj = Some f →
  Data (config c) !! "deployment" = Some data →
  (∀ e, Unmarshal data = inl e →
     ∃ s',
       ensureK8sResources c funcObj s = Returns (Some e) s' ∧
       trace s' = trace s ++ [Logged (LogParseError e)]) ∧
  (∀ d merged e,
     Unmarshal data = inr d →
     MergeDeployments (spec_Deployment (fn_Spec f)) d = (merged, Some e) →
     ∃ s' f',
       ensureK8sResources c funcObj s = Returns (Some e) s' ∧
       trace s' = trace s ++ [Logged (LogMergeError e)] ∧
       heap s' !! funcObj = Some f' ∧
       spec_Deployment (fn_Spec f') = merged).
Proof.
  intros Hf Hdata. split.
  - intros e He.
    change (wp (ensureK8sResources c funcObj) (λ o, ∃ s',
      o = Returns (Some e) s' ∧
      trace s' = trace s ++ [Logged (LogParseError e)]) s).
    unfold ensureK8sResources. rewrite Hdata, He.
    repeat wp_step.
    all: try match goal with
             | H : (len_map None =? 0)%nat = false |- _ =>
                 by destruct (len_map_not_nil _ H)
             end.
    all: by eexists.
  - intros d merged e Hd Hmerge.
    change (wp (ensureK8sResources c funcObj) (λ o, ∃ s' f',
      o = Returns (Some e) s' ∧
      trace s' = trace s ++ [Logged (LogMergeError e)] ∧
      heap s' !! funcObj = Some f' ∧
      spec_Deployment (fn_Spec f') = merged) s).
    unfold ensureK8sResources. rewrite Hdata, Hd.
    repeat wp_step.
    all: try match goal with
             | H : (len_map None =? 0)%nat = false |- _ =>
                 by destruct (len_map_not_nil _ H)
             end.
    all: simplify_eq.
    all: eexists _, _; split; [reflexivity|]; split; [reflexivity|].
    all: cbn [heap]; rewrite lookup_insert_eq; by split.
Qed.

(** ** What a run leaves behind *)

Lemma processed_app (tr1 tr2 : list (event Deployment)) :
  processed (tr1 ++ tr2) = processed tr1 ++ processed tr2.
Proof. unfold processed, logged. by rewrite !omap_app. Qed.

(** The ensure path returns or panics, leaves the queue alone, records no
    key as processed and writes to no Function but its own, which it
    leaves with its name and with the label [function=<name>] added to
    the labels it had. *)
Lemma ensure_path_frame (c : Controller) (funcObj : loc) (s : State) :
  ∃ tr,
    returns_or_panics (ensureK8sResources c funcObj s) ∧
    trace (final (ensureK8sResources c funcObj s)) = trace s ++ tr ∧
    queue (final (ensureK8sResources c funcObj s)) = queue s ∧
    processed tr = [] ∧
    (∀ p, p ≠ funcObj →
          heap (final (ensureK8sResources c funcObj s)) !! p = heap s !! p) ∧
    (∀ f, heap s !! funcObj = Some f →
          ∃ f',
            heap (final (ensureK8sResources c funcObj s)) !! funcObj = Some f' ∧
            Name (fn_ObjectMeta f') = Name (fn_ObjectMeta f) ∧
            Labels (fn_ObjectMeta f')
              = Some (<["function" := Name (fn_ObjectMeta f)]>
                        (default ∅ (Labels (fn_ObjectMeta f))))).
Proof.
  change (wp (ensureK8sResources c funcObj) (λ o, ∃ tr,
    returns_or_panics o ∧
    trace (final o) = trace s ++ tr ∧
    queue (final o) = queue s ∧
    processed tr = [] ∧
    (∀ p, p ≠ funcObj → heap (final o) !! p = heap s !! p) ∧
    (∀ f, heap s !! funcObj = Some f →
          ∃ f',
            heap (final o) !! funcObj = Some f' ∧
            Name (fn_ObjectMeta f') = Name (fn_ObjectMeta f) ∧
            Labels (fn_ObjectMeta f')
              = Some (<["function" := Name (fn_ObjectMeta f)]>
                        (default ∅ (Labels (fn_ObjectMeta f))))) ) s).
  unfold ensureK8sResources.
  repeat wp_step.
  all: repeat match goal with H : api _ _ = _ |- _ => clear H end.
  all: try match goal with
           | H : (len_map None =? 0)%nat = false |- _ =>
               by destruct (len_map_not_nil _ H)
           end.
  all: eexists; split; [exact I|].
  all: split;
    [ first [ flatten_trace; reflexivity | symmetry; apply app_nil_r ] | ].
  all: split; [reflexivity|]. all: split; [reflexivity|].
  all: cbn [final heap].
  all: split;
    [ intros p' Hp'; rewrite ?lookup_insert_ne by done; reflexivity
    | intros f'' Hf''; simplify_eq ].
  all: rewrite ?lookup_insert_eq.
  all: eexists; split; [reflexivity|]; split; [reflexivity|]; cbn.
  all: lazymatch goal with
       | H : (len_map _ =? 0)%nat = true |- _ => by rewrite (len_map_0 _ H)
       | H : Labels _ = Some _ |- _ => by rewrite H
       | _ => done
       end.
Qed.

(** X9.  Running the ensure path a second time on the same stored
    Function changes neither its name nor its labels: they are as the
    first run left them.  And neither run writes to any other Function of
    the store. *)
Theorem label_normalization_is_idempotent (c : Controller) (funcObj : loc)
    (s : State) (f : Function Deployment) :
  heap s !! funcObj = Some f →
  let s1 := final (ensureK8sResources c funcObj s) in
  let s2 := final (ensureK8sResources c funcObj s1) in
  (∃ f1 f2,
     heap s1 !! funcObj = Some f1 ∧ heap s2 !! funcObj = Some f2 ∧
     Name (fn_ObjectMeta f2) = Name (fn_ObjectMeta f1) ∧
     Labels (fn_ObjectMeta f2) = Labels (fn_ObjectMeta f1)) ∧
  (∀ p, p ≠ funcObj → heap s2 !! p = heap s !! p).
Proof.
  intros Hf s1 s2.
  destruct (ensure_path_frame c funcObj s) as (tr1 & _ & _ & _ & _ & Hp1 & Hf1).
  destruct (Hf1 f Hf) as (f1 & Hheap1 & Hname1 & Hlabels1).
  destruct (ensure_path_frame c funcObj s1) as (tr2 & _ & _ & _ & _ & Hp2 & Hf2).
  destruct (Hf2 f1 Hheap1) as (f2 & Hheap2 & Hname2 & Hlabels2).
  split.
  - exists f1, f2. repeat split; [done..|].
    rewrite Hlabels2, Hlabels1, Hname1. cbn. by rewrite insert_insert_eq.
  - intros p Hp. unfold s2. rewrite Hp2 by done. by apply Hp1.
Qed.

(** ** More of the worker *)

(** The delete path records no key as processed. *)
Lemma delete_path_frame (c : Controller) (ns name : string) (s : State) :
  ∃ r s' tr,
    deleteK8sResources c ns name s = Returns r s' ∧
    trace s' = trace s ++ tr ∧ queue s' = queue s ∧ processed tr = [].
Proof.
  change (wp (deleteK8sResources c ns name) (λ o, ∃ r s' tr,
    o = Returns r s' ∧
    trace s' = trace s ++ tr ∧ queue s' = queue s ∧ processed tr = []) s).
  unfold deleteK8sResources.
  repeat wp_step.
  all: eexists _, _, _; split; [reflexivity|].
  all: split; [flatten_trace; reflexivity|]; by cbn.
Qed.

(** Processing a key returns or panics, leaves the queue alone and
    records that key, and no other, as processed. *)
Lemma processItem_frame (c : Controller) (key : string) (s : State) :
  ∃ tr,
    returns_or_panics (processItem c key s) ∧
    queue (final (processItem c key s)) = queue s ∧
    trace (final (processItem c key s)) = trace s ++ tr ∧
    processed tr = [key].
Proof.
  rewrite processItem_run.
  destruct (SplitMetaNamespaceKey key) as [err|[ns name]];
    [by exists [Logged (LogProcessing key)]|].
  destruct (api (GetByKey key) (world s)) as [[err|[funcObj|]] w]; cbv zeta.
  - by eexists [_; _].
  - match goal with
    | |- context [ensureK8sResources c funcObj ?s1] =>
        destruct (ensure_path_frame c funcObj s1)
          as (tr & Hend & Htr & Hq & Hpr & _)
    end.
    destruct (ensureK8sResources c funcObj _) as [|[e|] s'|p s'|];
      try done; cbn [final with_event trace queue] in *.
    + exists ([Logged (LogProcessing key); Called (GetByKey key) (inr (Some funcObj))]
              ++ tr ++ [Logged (LogCantUpdate e)]).
      rewrite Htr, !processed_app, Hpr, <- !app_assoc. by cbn.
    + exists ([Logged (LogProcessing key); Called (GetByKey key) (inr (Some funcObj))]
              ++ tr ++ [Logged (LogUpdated key)]).
      rewrite Htr, !processed_app, Hpr, <- !app_assoc. by cbn.
    + exists ([Logged (LogProcessing key); Called (GetByKey key) (inr (Some funcObj))]
              ++ tr).
      rewrite Htr, !processed_app, Hpr, <- !app_assoc. by cbn.
  - match goal with
    | |- context [deleteK8sResources c ns name ?s1] =>
        destruct (delete_path_frame c ns name s1)
          as (r & s' & tr & -> & Htr & Hq & Hpr)
    end.
    exists ([Logged (LogProcessing key); Called (GetByKey key) (inr None)]
            ++ tr ++ [Logged (match r with
                              | Some e => LogCantDelete e
                              | None => LogDeleted key
                              end)]).
    destruct r; cbn [final with_event trace queue] in *;
      rewrite Htr, !processed_app, Hpr, <- !app_assoc; by cbn.
Qed.

(** One round of the worker on the key the queue delivers: it answers
    true or panics; either way the key is marked done, the keys that were
    pending behind it are pending still, and the trace records that key
    as processed. *)
Lemma processNextItem_round (c : Controller) (s : State) (key : string) (q : Queue) :
  Get (queue s) = GetItem key q →
  ∃ tr,
    match processNextItem c s with
    | Returns more _ => more = true
    | Panics _ s' =>
        failures (queue s') = failures (queue s) ∧
        waiting (queue s') = waiting (queue s)
    | _ => False
    end ∧
    trace (final (processNextItem c s)) = trace s ++ tr ∧
    processed tr = [key] ∧
    pending (queue (final (processNextItem c s))) = pending q ∧
    dirty (queue (final (processNextItem c s))) = dirty q ∧
    processing (queue (final (processNextItem c s)))
      = processing (queue s) ∖ {[key]} ∧
    shuttingDown (queue (final (processNextItem c s))) = shuttingDown (queue s).
Proof.
  intros HGet. rewrite (processNextItem_run c s key q HGet).
  destruct (processItem_frame c key (with_queue q s)) as (tr & Hend & Hq & Htr & Hpr).
  assert (Hkey : (key ∉ dirty q) ∧
                 (processing q ∖ {[key]} = processing (queue s) ∖ {[key]}) ∧
                 shuttingDown q = shuttingDown (queue s) ∧
                 failures q = failures (queue s) ∧ waiting q = waiting (queue s)).
  { unfold Get in HGet. destruct (pending (queue s)); [by destruct (shuttingDown _)|].
    injection HGet as <- <-. cbn. repeat split; set_solver. }
  destruct Hkey as (Hd & Hp & Hs & Hf & Hw).
  destruct (processItem c key (with_queue q s)) as [|[e|] s'|p s'|];
    try done; cbn [final with_queue with_event queue trace] in *; rewrite Hq.
  - destruct (NumRequeues key q <? maxRetries)%nat;
      cbn [final with_queue with_event queue trace].
    + exists (tr ++ [Logged (LogWillRetry key e)]).
      rewrite Htr, processed_app, Hpr, <- app_assoc.
      unfold Done, AddRateLimited; cbn.
      rewrite bool_decide_eq_false_2 by done. by cbn.
    + exists (tr ++ [Logged (LogGivingUp key e); Logged (HandleError e)]).
      rewrite Htr, processed_app, Hpr, <- !app_assoc.
      unfold Done, Forget; cbn.
      rewrite bool_decide_eq_false_2 by done. by cbn.
  - exists tr. unfold Done, Forget; cbn.
    rewrite bool_decide_eq_false_2 by done. by cbn.
  - exists tr. unfold Done; cbn.
    rewrite bool_decide_eq_false_2 by done. by cbn.
Qed.

(** X10.  Whatever processing a key does, the worker marks the key done:
    after a round on the key the queue delivered, the key is no longer in
    flight, also when processing it panicked, and the keys that were
    pending behind it are pending still.  A round on a delivered key
    never tells the worker to stop.  And a panic bypasses the retry
    policy: the key is neither counted as failed nor handed to the rate
    limiter. *)
Theorem attempt_is_always_marked_done (c : Controller) (s : State)
    (key : string) (q : Queue) :
  Get (queue s) = GetItem key q →
  (key ∉ processing (queue (final (processNextItem c s)))) ∧
  (∀ k, k ≠ key →
        k ∈ processing (queue (final (processNextItem c s)))
        ↔ k ∈ processing (queue s)) ∧
  pending (queue s) = key :: pending (queue (final (processNextItem c s))) ∧
  match processNextItem c s with
  | Returns more _ => more = true
  | Panics _ s' =>
      NumRequeues key (queue s') = NumRequeues key (queue s) ∧
      waiting (queue s') = waiting (queue s)
  | Continue _ _ | Waits _ => False
  end.
Proof.
  intros HGet.
  destruct (processNextItem_round c s key q HGet)
    as (tr & Hend & _ & _ & Hp & _ & Hpr & _).
  rewrite Hp, Hpr.
  split; [set_solver|]. split; [set_solver|]. split.
  - unfold Get in HGet.
    destruct (pending (queue s)); [by destruct (shuttingDown _)|].
    by injection HGet as <- <-.
  - destruct (processNextItem c s) as [| |p s'|]; try done.
    destruct Hend as [Hf Hw]. unfold NumRequeues. by rewrite Hf.
Qed.

(** What an addition does to the pending keys: it appends the key, or
    nothing. *)
Lemma Add_pending (key : string) (q : Queue) :
  ∃ arrived,
    pending (Add key q) = pending q ++ arrived ∧
    arrived `sublist_of` [key] ∧
    shuttingDown (Add key q) = shuttingDown q.
Proof.
  unfold Add. repeat case_bool_decide; cbn.
  - exists []. rewrite app_nil_r. split; [done|]. split; [apply sublist_nil_l|done].
  - exists []. rewrite app_nil_r. split; [done|]. split; [apply sublist_nil_l|done].
  - by exists [key].
Qed.

(** What one interference does to the pending keys and to the shutdown
    flag. *)
Lemma interfere_pending (i : interference) (q : Queue) :
  ∃ arrived,
    pending (interfere i q) = pending q ++ arrived ∧
    arrived `sublist_of` omap arrival [i] ∧
    shuttingDown (interfere i q) = shuttingDown q || stops i.
Proof.
  destruct i as [key|key|]; cbn.
  - destruct (Add_pending key q) as (arrived & Hp & Hsub & Hs).
    exists arrived. by rewrite Hp, Hs, orb_false_r.
  - unfold backoff_elapsed. case_bool_decide.
    + match goal with
      | |- context [Add key ?q'] =>
          destruct (Add_pending key q') as (arrived & Hp & Hsub & Hs)
      end.
      exists arrived. by rewrite Hp, Hs, orb_false_r.
    + exists []. rewrite app_nil_r, orb_false_r.
      split; [done|]. split; [apply sublist_nil_l|done].
  - exists []. rewrite app_nil_r, orb_true_r.
    split; [done|]. split; [apply sublist_nil_l|done].
Qed.

(** The same for a batch of them. *)
Lemma interfere_batch_pending (batch : list interference) (q : Queue) :
  ∃ arrived,
    pending (foldl (λ q i, interfere i q) q batch) = pending q ++ arrived ∧
    arrived `sublist_of` omap arrival batch ∧
    shuttingDown (foldl (λ q i, interfere i q) q batch)
      = shuttingDown q || existsb stops batch.
Proof.
  revert q. induction batch as [|i batch IH]; intros q.
  { exists []. cbn. rewrite app_nil_r, orb_false_r.
    split; [done|]. split; [apply sublist_nil_l|done]. }
  destruct (interfere_pending i q) as (arrived1 & Hp1 & Hsub1 & Hs1).
  destruct (IH (interfere i q)) as (arrived2 & Hp2 & Hsub2 & Hs2).
  exists (arrived1 ++ arrived2). cbn [foldl existsb].
  rewrite Hp2, Hp1, Hs2, Hs1, <- app_assoc, orb_assoc.
  split; [done|]. split; [|done].
  change (i :: batch) with ([i] ++ batch). rewrite omap_app.
  by apply sublist_app.
Qed.

(** A shut-down flag that is set was set at the start or by a [Stopped]
    of the schedule. *)
Lemma existsb_stops (batch : list interference) :
  existsb stops batch = true → Stopped ∈ batch.
Proof.
  induction batch as [|[key|key|] batch IH]; cbn; [done| | |];
    intros; first [ apply list_elem_of_here
                  | apply list_elem_of_further; auto ].
Qed.

(** X11.  The worker loop among the rest of the program.  Whatever
    reaches the queue while it runs, the worker takes the keys in the
    order in which they became pending, one round each, and loses none:
    the keys pending at the start followed by the keys that arrived are
    the keys it has processed followed by the keys still pending.  Every
    arrival is the key of an addition or of an elapsed backoff of the
    schedule, in the order of the schedule.  The loop returns only when
    the queue has been shut down, at the start or by the schedule, and
    nothing is pending; it ends early only when processing a key panics;
    and it makes at most one round per round of the schedule. *)
Theorem worker_takes_pending_keys_in_order (c : Controller)
    (schedule : list (list interference)) (s : State) :
  ∃ tr arrived,
    trace (final (runWorker schedule c s)) = trace s ++ tr ∧
    pending (queue s) ++ arrived
      = processed tr ++ pending (queue (final (runWorker schedule c s))) ∧
    arrived `sublist_of` omap arrival (concat schedule) ∧
    match runWorker schedule c s with
    | Returns _ s' =>
        shuttingDown (queue s') = true ∧ pending (queue s') = [] ∧
        (shuttingDown (queue s) = true ∨ Stopped ∈ concat schedule)
    | Panics _ _ => processed tr ≠ []
    | Continue _ _ => (length (processed tr) ≤ length schedule)%nat
    | Waits _ => False
    end.
Proof.
  revert s. induction schedule as [|batch schedule IH]; intros s.
  { exists [], []. cbn. rewrite !app_nil_r. repeat split; [done|lia]. }
  cbn [runWorker]. unfold mbind, stmt_bind, on_queue.
  destruct (interfere_batch_pending batch (queue s)) as (arrived0 & Hp0 & Hsub0 & Hs0).
  set (s0 := {| world := world s; heap := heap s;
                queue := foldl (λ q i, interfere i q) (queue s) batch;
                trace := trace s |}).
  change (pending (queue s0) = pending (queue s) ++ arrived0) in Hp0.
  change (shuttingDown (queue s0)
          = shuttingDown (queue s) || existsb stops batch) in Hs0.
  assert (Hsub0' : ∀ arrived2,
             arrived2 `sublist_of` omap arrival (concat schedule) →
             arrived0 ++ arrived2
               `sublist_of` omap arrival (concat (batch :: schedule))).
  { intros arrived2 Hsub2. cbn [concat]. rewrite omap_app. by apply sublist_app. }
  assert (Hstop : ∀ s1,
             shuttingDown (queue s1) = shuttingDown (queue s0) →
             shuttingDown (queue s1) = true ∨ Stopped ∈ concat schedule →
             shuttingDown (queue s) = true ∨ Stopped ∈ concat (batch :: schedule)).
  { intros s1 Hs1 [Hshut|Hin]; cbn [concat]; [|right; set_solver].
    rewrite Hs1, Hs0 in Hshut. apply orb_true_iff in Hshut as [?|Hb]; [by left|].
    right. apply existsb_stops in Hb. set_solver. }
  destruct (Get (queue s0)) as [key q| |] eqn:HGet.
  - destruct (processNextItem_round c s0 key q HGet)
      as (tr1 & Hend & Htr1 & Hpr1 & Hp1 & _ & _ & Hs1).
    assert (Hpending : pending (queue s0) = key :: pending q).
    { unfold Get in HGet.
      destruct (pending (queue s0)); [by destruct (shuttingDown _)|].
      by injection HGet as <- <-. }
    destruct (processNextItem c s0) as [|more s1|p s1|]; try done;
      cbn [final] in *.
    + subst more.
      destruct (IH s1) as (tr2 & arrived2 & Htr2 & Hp2 & Hsub2 & Hend2).
      exists (tr1 ++ tr2), (arrived0 ++ arrived2).
      rewrite Htr2, Htr1, <- app_assoc. split; [done|].
      split.
      { rewrite processed_app, Hpr1, app_assoc, <- Hp0, Hpending, <- Hp1.
        cbn. by rewrite Hp2. }
      split; [by apply Hsub0'|].
      destruct (runWorker schedule c s1); try done.
      * rewrite processed_app, Hpr1. cbn. lia.
      * destruct Hend2 as (? & ? & Hor). repeat split; [done..|].
        by apply (Hstop s1).
      * rewrite processed_app, Hpr1. done.
    + exists tr1, arrived0. split; [done|].
      split; [by rewrite Hpr1, <- Hp0, Hpending, Hp1|].
      split; [|by rewrite Hpr1].
      rewrite <- (app_nil_r arrived0). apply Hsub0', sublist_nil_l.
  - assert (Hdrained : pending (queue s0) = [] ∧ shuttingDown (queue s0) = true).
    { unfold Get in HGet. destruct (pending (queue s0)); [|done].
      by destruct (shuttingDown (queue s0)). }
    destruct Hdrained as [Hnone Hshut].
    unfold processNextItem, mbind, stmt_bind, queue_Get. rewrite HGet. cbn.
    exists [], arrived0. rewrite app_nil_r. split; [done|].
    split; [by rewrite <- Hp0, Hnone|].
    split; [rewrite <- (app_nil_r arrived0); apply Hsub0', sublist_nil_l|].
    repeat split; [done..|]. apply (Hstop s0); [done|by left].
  - unfold processNextItem, mbind, stmt_bind, queue_Get. rewrite HGet.
    destruct (IH s0) as (tr2 & arrived2 & Htr2 & Hp2 & Hsub2 & Hend2).
    exists tr2, (arrived0 ++ arrived2). split; [done|].
    split; [by rewrite app_assoc, <- Hp0|].
    split; [by apply Hsub0'|].
    destruct (runWorker schedule c s0); try done.
    + cbn. lia.
    + destruct Hend2 as (? & ? & Hor). repeat split; [done..|].
      by apply (Hstop s0).
Qed.

(** X14.  Once the queue is shut down and nothing reaches it any more,
    the worker drains it and leaves: given one round per pending key and
    one more, it processes the pending keys in order, each once, and
    returns with nothing pending, unless processing one of them
    panics. *)
Theorem worker_leaves_after_shutdown (c : Controller) (rounds : nat) (s : State) :
  shuttingDown (queue s) = true →
  (length (pending (queue s)) < rounds)%nat →
  ∃ tr,
    trace (final (runWorker (replicate rounds []) c s)) = trace s ++ tr ∧
    match runWorker (replicate rounds []) c s with
    | Returns _ s' =>
        processed tr = pending (queue s) ∧ pending (queue s') = []
    | Panics _ _ => processed tr ≠ []
    | Continue _ _ | Waits _ => False
    end.
Proof.
  revert s. induction rounds as [|rounds IH]; intros s Hshut Hrounds; [lia|].
  cbn [replicate runWorker foldl]. unfold mbind, stmt_bind, on_queue.
  replace {| world := world s; heap := heap s; queue := queue s;
             trace := trace s |} with s by (by destruct s).
  destruct (Get (queue s)) as [key q| |] eqn:HGet.
  - destruct (processNextItem_round c s key q HGet)
      as (tr1 & Hend & Htr1 & Hpr1 & Hp1 & _ & _ & Hs1).
    assert (Hpending : pending (queue s) = key :: pending q).
    { unfold Get in HGet.
      destruct (pending (queue s)); [by destruct (shuttingDown _)|].
      by injection HGet as <- <-. }
    destruct (processNextItem c s) as [|more s1|p s1|]; try done;
      cbn [final] in *.
    + subst more.
      destruct (IH s1) as (tr2 & Htr2 & Hend2).
      { by rewrite Hs1. }
      { rewrite Hp1. rewrite Hpending in Hrounds. cbn in Hrounds. lia. }
      exists (tr1 ++ tr2). rewrite Htr2, Htr1, <- app_assoc. split; [done|].
      destruct (runWorker (replicate rounds []) c s1); try done.
      * destruct Hend2 as [Hpr2 Hnone].
        by rewrite processed_app, Hpr1, Hpr2, Hpending, Hp1.
      * by rewrite processed_app, Hpr1.
    + exists tr1. split; [done|]. by rewrite Hpr1.
  - unfold processNextItem, mbind, stmt_bind, queue_Get. rewrite HGet. cbn.
    exists []. rewrite app_nil_r. split; [done|].
    unfold Get in HGet. by destruct (pending (queue s)).
  - unfold Get in HGet. destruct (pending (queue s)); [|done].
    by rewrite Hshut in HGet.
Qed.

(** X13.  Processing a key leaves the work queue exactly as it was:
    adding, forgetting and rate-limiting are left to the worker.  Its
    trace records the key as processed, once, and no other key. *)
Theorem processing_leaves_queue_alone (c : Controller) (key : string) (s : State) :
  ∃ tr,
    queue (final (processItem c key s)) = queue s ∧
    trace (final (processItem c key s)) = trace s ++ tr ∧
    processed tr = [key].
Proof.
  destruct (processItem_frame c key s) as (tr & _ & Hqueue & Htrace & Hkey).
  by exists tr.
Qed.

(** ** More of the sweep *)

(** X12.  The sweep logs nothing and always returns.  It returns an error
    exactly when a listing failed: the error is the one that listing
    answered, and that listing is the last round trip of the sweep. *)
Theorem sweep_reports_failed_listing (c : Controller) (s : State) :
  ∃ r s' tr,
    garbageCollect c s = Returns r s' ∧
    trace s' = trace s ++ tr ∧
    logged tr = [] ∧
    (∀ e, r = Some e ↔ ∃ ev, last tr = Some ev ∧ event_error ev = Some e) ∧
    (∀ i ev e,
       tr !! i = Some ev → event_error ev = Some e → length tr = S i).
Proof.
  unfold garbageCollect, mbind, stmt_bind, invoke_fn, check.
  destruct (collectServices_run c s)
    as (r1 & s1 & [e1|objs1] & -> & _ & Ht1 & _ & ->).
  { eexists _, _, _. split; [reflexivity|]. split; [exact Ht1|].
    split; [done|]. split.
    - intros e. split; [intros [= <-]; by eexists|].
      by intros (ev & [= <-] & [= <-]).
    - intros i ev e Hi. by_position i Hi. done. }
  cbn [mret stmt_ret].
  destruct (collectDeployment_run c s1)
    as (r2 & s2 & [e2|objs2] & -> & _ & Ht2 & _ & ->).
  { eexists _, _, _. split; [reflexivity|].
    rewrite Ht2, Ht1, <- app_assoc. split; [reflexivity|].
    split; [done|]. split.
    - intros e. split; [intros [= <-]; by eexists|].
      by intros (ev & [= <-] & [= <-]).
    - intros i ev e Hi. by_position i Hi; done. }
  cbn [mret stmt_ret].
  destruct (collectConfigMap_run c s2)
    as (r3 & s3 & [e3|objs3] & -> & _ & Ht3 & _ & ->).
  { eexists _, _, _. split; [reflexivity|].
    rewrite Ht3, Ht2, Ht1, <- !app_assoc. split; [reflexivity|].
    split; [done|]. split.
    - intros e. split; [intros [= <-]; by eexists|].
      by intros (ev & [= <-] & [= <-]).
    - intros i ev e Hi. by_position i Hi; done. }
  eexists _, _, _. split; [reflexivity|].
  rewrite Ht3, Ht2, Ht1, <- !app_assoc. split; [reflexivity|].
  split; [done|]. split.
  - intros e. split; [done|]. by intros (ev & [= <-] & ?).
  - intros i ev e Hi. by_position i Hi; done.
Qed.

End Properties.

(** * The properties at work on the scripted platform *)

(** C1 (the claim as stated fails).  The key [a/b/c] cannot be split.
    Alone in the queue of a fresh controller, it is not dropped after its
    first attempt: the worker logs "will retry", counts one failure and
    hands the key to the rate limiter, and once the backoff has elapsed the
    key is pending again. *)
Lemma malformed_key_is_retried :
  split_key "a/b/c" = inl (Errorf "unexpected key format: a/b/c") ∧
  ∃ s',
    processNextItem plain_controller (one_key "a/b/c") = Returns true s' ∧
    waiting (queue s') = ["a/b/c"] ∧
    NumRequeues "a/b/c" (queue s') = 1 ∧
    logged (trace s')
      = [LogProcessing "a/b/c";
         LogWillRetry "a/b/c" (Errorf "unexpected key format: a/b/c")] ∧
    pending (queue (attempt_cycle plain_controller (one_key "a/b/c")))
      = ["a/b/c"].
Proof.
  split; [reflexivity|].
  eexists. split; [reflexivity|]. by vm_compute.
Qed.

(** C1 at work: the attempt on the key [a/b/c] returns the error of the
    split, having logged one line and nothing else. *)
Lemma malformed_key_fails_like_any_other_witness :
  split_key "a/b/c" = inl (Errorf "unexpected key format: a/b/c") ∧
  processItem plain_controller "a/b/c" (one_key "a/b/c")
    = Returns (Some (Errorf "unexpected key format: a/b/c"))
        (with_event (Logged (LogProcessing "a/b/c")) (one_key "a/b/c")).
Proof.
  split; [reflexivity|].
  apply (malformed_key_fails_like_any_other plain_controller "a/b/c"
           (Errorf "unexpected key format: a/b/c") (one_key "a/b/c")).
  reflexivity.
Defined.

(** C2 at work: the ensure path on a Function whose autoscaling
    specification lists no metric either fails early or panics. *)
Lemma empty_metric_list_panics_witness :
  (∃ e s',
     ensureK8sResources plain_controller 1%positive
       (holding autoscaled_without_metrics) = Returns (Some e) s') ∨
  (∃ s' tr,
     ensureK8sResources plain_controller 1%positive
       (holding autoscaled_without_metrics) = Panics IndexOutOfRange s' ∧
     trace s' = trace (holding autoscaled_without_metrics) ++ tr ∧
     Forall (λ c', is_autoscale_ensure c' = false) (calls tr)).
Proof.
  apply (empty_metric_list_panics plain_controller 1%positive
           (holding autoscaled_without_metrics) autoscaled_without_metrics);
    [reflexivity|discriminate..|reflexivity].
Defined.

(** C2 at work, evaluated: every earlier step of the ensure path succeeds
    on the quiet platform, the configuration object, the service and the
    deployment are ensured, and then the read of the first metric
    panics. *)
Example empty_metric_list_run :
  ∃ s',
    ensureK8sResources plain_controller 1%positive
      (holding autoscaled_without_metrics) = Panics IndexOutOfRange s' ∧
    is_core_ensure <$> calls (trace s') = [true; true; true].
Proof. eexists. split; [reflexivity|]. by vm_compute. Qed.

(** C3 at work: the key [a/b/c], which fails every time, is gone after
    its sixth attempt. *)
Lemma retry_policy_witness :
  retrying "a/b/c" 0 (queue (one_key "a/b/c")) ∧
  dropped "a/b/c"
    (queue (Nat.iter 6 (attempt_cycle plain_controller) (one_key "a/b/c"))).
Proof.
  assert (Hstart : retrying "a/b/c" 0 (queue (one_key "a/b/c")))
    by (by vm_compute).
  split; [exact Hstart|].
  apply (retry_policy plain_controller "a/b/c" (one_key "a/b/c"));
    [exact Hstart|].
  intros n Hn.
  do 6 (destruct n as [|n];
        [eexists _, _, _; split; vm_compute; reflexivity|]).
  lia.
Defined.

(** C4 at work: the key [ns/f] is absent from the store, so the attempt
    is the delete path. *)
Lemma processItem_dispatch_witness :
  attempt_of
    (deleteK8sResources plain_controller "ns" "f"
       {| world := vacant; heap := ∅; queue := empty_queue;
          trace := [Logged (LogProcessing "ns/f");
                    Called (GetByKey "ns/f") (inr None)] |})
    LogCantDelete (LogDeleted "ns/f")
    (processItem plain_controller "ns/f" (boot vacant)).
Proof.
  apply (processItem_dispatch plain_controller "ns/f" "ns" "f" (boot vacant)
           (inr None) vacant);
    reflexivity.
Defined.

(** C4 at work, the other way: the key [default/f] is present in the
    store, so the attempt ensures the three core objects, removes what is
    left of an autoscaler and logs the update. *)
Example present_key_is_ensured :
  ∃ s',
    processItem plain_controller "default/f" (stored unlabelled)
      = Returns None s' ∧
    logged (trace s') = [LogProcessing "default/f"; LogUpdated "default/f"] ∧
    is_ensure <$> calls (trace s') = [false; true; true; true; false; false] ∧
    is_cronjob_get <$> calls (trace s')
      = [false; false; false; false; false; false].
Proof. eexists. split; [vm_compute; reflexivity|]. by vm_compute. Qed.

(** C8 at work: a Function without labels ends up labelled with its
    name. *)
Lemma function_label_normalized_witness :
  ∃ f' labels,
    heap (final (ensureK8sResources plain_controller 1%positive
                   (holding unlabelled))) !! 1%positive = Some f' ∧
    Labels (fn_ObjectMeta f') = Some labels ∧
    labels !! "function" = Some "f".
Proof.
  destruct (function_label_normalized plain_controller 1%positive
              (holding unlabelled) unlabelled eq_refl)
    as (f' & labels & tr & Hheap & Hname & Hlabels & Hfunction & _).
  exists f', labels. rewrite Hname in Hfunction. by repeat split.
Defined.

(** C9 (the claim as stated fails).  Discovery answers one list; the list
    has a resource named cronjobs; its group version is empty.  The
    lookup returns the not-found error all the same. *)
Lemma nameless_group_is_not_found :
  contains_resource "cronjobs" nameless_group = true ∧
  ∃ s',
    getResouceGroupVersion "cronjobs" (boot (discovering [nameless_group]))
      = Returns ("", Some (Errorf "Resource cronjobs not found in any group")) s'.
Proof. split; [by vm_compute|]. by eexists. Qed.

(** C9 at work: two discovered lists have cronjobs; the group version of
    the second is returned. *)
Example last_group_version_wins :
  ∃ s',
    getResouceGroupVersion "cronjobs"
      (boot (discovering
               [{| GroupVersion := "batch/v1beta1";
                   APIResources := [{| ar_Name := "jobs" |};
                                    {| ar_Name := "cronjobs" |}] |};
                {| GroupVersion := "v1";
                   APIResources := [{| ar_Name := "pods" |}] |};
                {| GroupVersion := "batch/v2alpha1";
                   APIResources := [{| ar_Name := "cronjobs" |}] |}]))
      = Returns ("batch/v2alpha1", None) s'.
Proof. by eexists. Qed.

(** C5 at work: nothing exists, every get and delete answers not-found,
    and the delete path returns success after trying them all. *)
Example delete_path_on_vacant_platform :
  ∃ s',
    deleteK8sResources plain_controller "ns" "f" (boot vacant) = Returns None s' ∧
    calls (trace s')
      = [CronJobs_Get "ns" "trigger-f";
         Deployments_Delete "ns" "f" DeletePropagationBackground;
         Services_Delete "ns" "f"; ConfigMaps_Delete "ns" "f";
         DeleteServiceMonitor "f" "ns"; DeleteAutoscale "f" "ns"].
Proof. eexists. split; [vm_compute; reflexivity|]. by vm_compute. Qed.

(** C10 at work: the probe times out; the scheduled job is left alone,
    the rest is deleted and the path reports success. *)
Example delete_path_when_probe_times_out :
  ∃ s',
    deleteK8sResources plain_controller "ns" "f" (boot probe_times_out)
      = Returns None s' ∧
    calls (trace s')
      = [CronJobs_Get "ns" "trigger-f";
         Deployments_Delete "ns" "f" DeletePropagationBackground;
         Services_Delete "ns" "f"; ConfigMaps_Delete "ns" "f";
         DeleteServiceMonitor "f" "ns"; DeleteAutoscale "f" "ns"].
Proof. eexists. split; [vm_compute; reflexivity|]. by vm_compute. Qed.

(** C7 at work: a service owned by the Function [orphan], a deployment
    owned by a ReplicaSet and a configuration object owned by the Function
    [other] under another api-group: the sweep enqueues [default/orphan]
    and nothing else. *)
Example sweep_on_three_objects :
  ∃ s',
    garbageCollect plain_controller
      (boot (listing [owned_by "Function" "kubeless.io" "orphan" "default"]
                     [owned_by "ReplicaSet" "apps/v1" "rs" "default"]
                     [owned_by "Function" "example.io" "other" "default"]))
      = Returns None s' ∧
    pending (queue s') = ["default/orphan"] ∧
    calls (trace s') = [Services_List; Deployments_List; ConfigMaps_List].
Proof. eexists. split; [vm_compute; reflexivity|]. by vm_compute. Qed.

(** * More of the controller at work on the scripted platform *)

(** X1 at work: without a client for the metrics monitor only the
    autoscaler is asked to go. *)
Example autoscale_cleanup_without_client :
  ∃ s',
    deleteAutoscale unmonitored_controller "ns" "f" (boot vacant) = Returns None s' ∧
    calls (trace s') = [DeleteAutoscale "f" "ns"].
Proof. eexists. split; [vm_compute; reflexivity|]. by vm_compute. Qed.

(** X3 at work: the Function [default/f] is triggered on a schedule and
    discovery knows cronjobs under [batch/v1beta1]: the ensure path
    returns success, so it has ensured the scheduled job. *)
Lemma scheduled_job_follows_discovery_witness :
  ∃ tr,
    trace (final (ensureK8sResources plain_controller 1%positive
                    (holding_on [batch_group] scheduled)))
      = trace (holding_on [batch_group] scheduled) ++ tr ∧
    existsb is_cronjob_ensure (calls tr) = true.
Proof.
  destruct (scheduled_job_follows_discovery plain_controller 1%positive
              (holding_on [batch_group] scheduled) scheduled eq_refl)
    as (tr & Htr & _ & Hjob & _).
  exists tr. split; [exact Htr|].
  apply Hjob; [reflexivity|]. eexists. vm_compute. reflexivity.
Defined.

(** X3 at work, evaluated: the builder of the job is handed the group
    version that discovery answered. *)
Example scheduled_job_run :
  ∃ s' g ors,
    ensureK8sResources plain_controller 1%positive
      (holding_on [batch_group] scheduled) = Returns None s' ∧
    calls (trace s') !! 3 = Some ServerResources ∧
    calls (trace s') !! 4 = Some (EnsureFuncCronJob g ors "batch/v1beta1").
Proof. eexists _, _, _. split; [vm_compute; reflexivity|]. by vm_compute. Qed.

(** X4 at work: an autoscaler on an object metric, and a controller
    without a client for the metrics monitor. *)
Lemma object_metric_needs_monitor_client_witness :
  (∃ e s',
     ensureK8sResources unmonitored_controller 1%positive
       (holding (autoscaled_on "Object")) = Returns (Some e) s') ∨
  (∃ s' tr,
     ensureK8sResources unmonitored_controller 1%positive
       (holding (autoscaled_on "Object")) = Panics NilDereference s' ∧
     trace s' = trace (holding (autoscaled_on "Object")) ++ tr ∧
     Forall (λ c', is_autoscale_ensure c' = false) (calls tr)).
Proof.
  apply (object_metric_needs_monitor_client unmonitored_controller 1%positive
           (holding (autoscaled_on "Object")) (autoscaled_on "Object")
           {| ms_Type := "Object" |} []);
    reflexivity.
Defined.

(** X4 at work, evaluated: the three core objects are ensured, then the
    path panics on the nil client. *)
Example object_metric_without_client_run :
  ∃ s',
    ensureK8sResources unmonitored_controller 1%positive
      (holding (autoscaled_on "Object")) = Panics NilDereference s' ∧
    is_core_ensure <$> calls (trace s') = [true; true; true].
Proof. eexists. split; [reflexivity|]. by vm_compute. Qed.

(** X5 at work: whatever autoscaler the ensure path creates for the
    Function [default/f] bears the name its specification gives it. *)
Lemma autoscaler_owned_by_function_witness :
  ∃ tr,
    trace (final (ensureK8sResources plain_controller 1%positive
                    (holding (autoscaled_on "Object"))))
      = trace (holding (autoscaled_on "Object")) ++ tr ∧
    ∀ i hpa,
      calls tr !! i = Some (CreateAutoscale hpa) →
      Name (hpa_ObjectMeta hpa) = "f".
Proof.
  destruct (autoscaler_owned_by_function plain_controller 1%positive
              (holding (autoscaled_on "Object")) (autoscaled_on "Object") eq_refl)
    as (tr & Htr & Hauto & _).
  exists tr. split; [exact Htr|].
  intros i hpa Hi.
  destruct (Hauto i hpa Hi) as (g & ors & f' & _ & _ & -> & _).
  reflexivity.
Defined.

(** X5 at work, evaluated: with a client for the metrics monitor, the
    autoscaler on an object metric is created after its monitor, and it is
    owned by the Function. *)
Example autoscaler_on_object_metric_run :
  ∃ s' hpa,
    ensureK8sResources plain_controller 1%positive
      (holding (autoscaled_on "Object")) = Returns None s' ∧
    is_autoscale_ensure <$> calls (trace s') = [false; false; false; true; true] ∧
    calls (trace s') !! 4 = Some (CreateAutoscale hpa) ∧
    or_Name <$> OwnerReferences (hpa_ObjectMeta hpa) = ["f"].
Proof.
  eexists _, _. split; [vm_compute; reflexivity|].
  split; [by vm_compute|]. split; vm_compute; reflexivity.
Qed.

(** X6 at work: the Function [default/f] names no autoscaler, so the
    ensure path creates none. *)
Lemma ensure_path_deletes_only_autoscaling_witness :
  ∃ tr,
    trace (final (ensureK8sResources plain_controller 1%positive
                    (holding unlabelled)))
      = trace (holding unlabelled) ++ tr ∧
    Forall (λ c', is_autoscale_ensure c' = false) (calls tr).
Proof.
  destruct (ensure_path_deletes_only_autoscaling plain_controller 1%positive
              (holding unlabelled) unlabelled eq_refl)
    as (tr & Htr & _ & Hnone).
  exists tr. split; [exact Htr|]. by apply Hnone.
Defined.

(** X7 at work: for the Function [default/f], which names no autoscaler,
    the ensure path returns. *)
Lemma missing_autoscaler_is_cleaned_up_witness :
  ∃ r s',
    ensureK8sResources plain_controller 1%positive (holding unlabelled)
      = Returns r s'.
Proof.
  destruct (missing_autoscaler_is_cleaned_up plain_controller 1%positive
              (holding unlabelled) unlabelled eq_refl eq_refl)
    as (r & s' & tr & Hrun & _).
  by exists r, s'.
Defined.

(** X7 at work, evaluated: nothing of an autoscaler exists, the two
    deletions answer not-found, and the run returns success. *)
Example missing_autoscaler_run :
  ∃ s',
    ensureK8sResources plain_controller 1%positive
      {| world := vacant; heap := {[1%positive := unlabelled]};
         queue := empty_queue; trace := [] |} = Returns None s' ∧
    drop 3 (calls (trace s'))
      = [DeleteServiceMonitor "f" "default"; DeleteAutoscale "f" "default"].
Proof. eexists. split; [vm_compute; reflexivity|]. by vm_compute. Qed.

(** X8 at work: the override is the empty text, which the parser of
    [brittle] rejects. *)
Lemma unusable_override_stops_ensure_witness :
  ∃ s',
    @ensureK8sResources string brittle (overriding_controller "") 1%positive
      (holding_brittle unlabelled) = Returns (Some (Errorf "EOF")) s' ∧
    trace s' = [Logged (LogParseError (Errorf "EOF"))].
Proof.
  apply (proj1 (@unusable_override_stops_ensure string brittle
                  (overriding_controller "") 1%positive
                  (holding_brittle unlabelled) unlabelled "" eq_refl eq_refl)).
  reflexivity.
Defined.

(** X8 at work, the other way: the override parses and the merge gives
    up. *)
Example override_that_cannot_be_merged :
  ∃ s',
    @ensureK8sResources string brittle (overriding_controller "replicas: many")
      1%positive (holding_brittle unlabelled)
      = Returns (Some (Errorf "cannot merge")) s' ∧
    trace s' = [Logged (LogMergeError (Errorf "cannot merge"))].
Proof. eexists. split; [vm_compute; reflexivity|]. by vm_compute. Qed.

(** X9 at work: two runs of the ensure path over the unlabelled Function
    [default/f]. *)
Lemma label_normalization_is_idempotent_witness :
  ∃ f1 f2,
    heap (final (ensureK8sResources plain_controller 1%positive
                   (holding unlabelled))) !! 1%positive = Some f1 ∧
    heap (final (ensureK8sResources plain_controller 1%positive
                   (final (ensureK8sResources plain_controller 1%positive
                             (holding unlabelled))))) !! 1%positive = Some f2 ∧
    Name (fn_ObjectMeta f2) = Name (fn_ObjectMeta f1) ∧
    Labels (fn_ObjectMeta f2) = Labels (fn_ObjectMeta f1).
Proof.
  apply (label_normalization_is_idempotent plain_controller 1%positive
           (holding unlabelled) unlabelled eq_refl).
Defined.

(** X10 at work: the key [a/b/c] fails; it is marked done all the
    same. *)
Lemma attempt_is_always_marked_done_witness :
  "a/b/c" ∉ processing (queue (final (processNextItem plain_controller
                                         (one_key "a/b/c")))).
Proof.
  refine (proj1 (attempt_is_always_marked_done plain_controller
                   (one_key "a/b/c") "a/b/c" _ _)).
  vm_compute. reflexivity.
Defined.

(** X11 at work: keys reach the queue while the worker runs, one of them
    twice, and then the queue is shut down.  The worker processes each key
    once, in the order of arrival, and returns. *)
Example worker_among_arrivals :
  ∃ s',
    runWorker [[Enqueued "ns/a"; Enqueued "ns/b"; Enqueued "ns/a"];
               [Enqueued "ns/c"]; [Stopped]; []]
      plain_controller (boot quiet) = Returns () s' ∧
    processed (trace s') = ["ns/a"; "ns/b"; "ns/c"] ∧
    pending (queue s') = [].
Proof. eexists. split; [vm_compute; reflexivity|]. by vm_compute. Qed.

(** X11 at work, on a key that fails every time: each time its backoff
    has elapsed the worker takes the key [a/b/c] again, six rounds in all,
    after which the queue has let go of it and the worker is left waiting
    for more. *)
Example worker_takes_retried_key_again :
  ∃ s',
    runWorker ([] :: replicate 6 [BackoffElapsed "a/b/c"])
      plain_controller (one_key "a/b/c") = Continue () s' ∧
    processed (trace s') = replicate 6 "a/b/c" ∧
    dropped "a/b/c" (queue s').
Proof. eexists. split; [vm_compute; reflexivity|]. by vm_compute. Qed.

(** X14 at work: three keys are pending on a queue that is shut down and
    left alone; four rounds are enough for the worker to leave. *)
Lemma worker_leaves_after_shutdown_witness :
  ∃ tr,
    trace (final (runWorker (replicate 4 []) plain_controller
                    (queued (queue_of ["ns/a"; "ns/b"; "ns/c"] true))))
      = trace (queued (queue_of ["ns/a"; "ns/b"; "ns/c"] true)) ++ tr ∧
    match runWorker (replicate 4 []) plain_controller
            (queued (queue_of ["ns/a"; "ns/b"; "ns/c"] true)) with
    | Returns _ s' =>
        processed tr = pending (queue (queued (queue_of ["ns/a"; "ns/b"; "ns/c"] true))) ∧
        pending (queue s') = []
    | Panics _ _ => processed tr ≠ []
    | Continue _ _ | Waits _ => False
    end.
Proof.
  apply (worker_leaves_after_shutdown plain_controller 4
           (queued (queue_of ["ns/a"; "ns/b"; "ns/c"] true)));
    [reflexivity | cbn; lia].
Defined.

(** X14 at work, evaluated: the worker processes the three keys in order
    and returns. *)
Example worker_drains_queue_after_shutdown :
  ∃ s',
    runWorker (replicate 4 []) plain_controller
      (queued (queue_of ["ns/a"; "ns/b"; "ns/c"] true)) = Returns () s' ∧
    processed (trace s') = ["ns/a"; "ns/b"; "ns/c"] ∧
    pending (queue s') = [].
Proof. eexists. split; [vm_compute; reflexivity|]. by vm_compute. Qed.

(** X12 at work: the services cannot be listed; the sweep returns that
    error and asks for nothing else. *)
Example sweep_stops_at_services :
  ∃ s',
    garbageCollect plain_controller (boot services_unlisted)
      = Returns (Some (StatusError "forbidden")) s' ∧
    calls (trace s') = [Services_List].
Proof. eexists. split; [vm_compute; reflexivity|]. by vm_compute. Qed.
